(** * Invoice generator (src/main.py): a shallow embedding and its properties

    The development follows the layout of [main.py]:
    - the utility functions [parse_int_with_commas] and [ordinal];
    - the FPDF object, seen as the history of the calls made on it, and the
      [safe_cell] wrapper;
    - [init_pdf] and [create_invoice_pdf], in a state-and-exception monad
      whose state is the FPDF call history, the Streamlit output and the
      payment entries of [invoice_data] (which the composer mutates);
    - the handler of the "Generate Invoice" button.

    Python values are modelled as follows: [int] is [Z]; [str] is a list
    of Unicode code points; [float] is IEEE 754 binary64, through the
    executable specification [SpecFloat] of the standard library; a [dict]
    with a fixed set of keys is a record; an exception is a constructor of
    [exn]. *)

From Stdlib Require Import ZArith NArith List String Ascii Bool Lia.
From Stdlib Require Import QArith Qminmax Qabs.
From Stdlib Require Import Floats.SpecFloat.
From Stdlib Require DecimalPos DecimalN.
From stdpp Require Import base list.
Import ListNotations.

Local Open Scope Z_scope.

(** ** Exceptions and results *)

Inductive exn : Type :=
| ValueError
| TypeError
| IndexError
| ZeroDivisionError
| OverflowError
| FileNotFoundError
| RuntimeError.

Inductive result (A : Type) : Type :=
| Ok (a : A)
| Raise (e : exn).
Arguments Ok {A} a.
Arguments Raise {A} e.

Definition rbind {A B} (r : result A) (k : A -> result B) : result B :=
  match r with
  | Ok a => k a
  | Raise e => Raise e
  end.

Declare Scope result_scope.
Delimit Scope result_scope with result.
Notation "'let*' x ':=' r 'in' k" := (rbind r (fun x => k))
  (at level 10, x name, r at level 100, k at level 200, only parsing)
  : result_scope.

(** ** Python strings *)

Module PyStr.

(** A [str] is a sequence of code points. *)
Abbreviation char := N.
Abbreviation str := (list N).

(** An ASCII literal of the source. *)
Definition lit (s : string) : str := map N_of_ascii (list_ascii_of_string s).

Definition comma : char := 44%N.

(** [str.isspace] on one character (the table of CPython's
    [_PyUnicode_IsWhitespace]). *)
Definition isspace (c : char) : bool :=
  ((0x09 <=? c) && (c <=? 0x0D) || (0x1C <=? c) && (c <=? 0x20) ||
   (c =? 0x85) || (c =? 0xA0) || (c =? 0x1680) ||
   (0x2000 <=? c) && (c <=? 0x200A) || (c =? 0x2028) || (c =? 0x2029) ||
   (c =? 0x202F) || (c =? 0x205F) || (c =? 0x3000))%N.

(** The first code point of every run of ten decimal digits (general category
    Nd, Numeric_Type=Decimal) of the Unicode character database, version 15. *)
Definition decimal_zeros : list N :=
  [ 0x30; 0x660; 0x6F0; 0x7C0; 0x966; 0x9E6; 0xA66; 0xAE6; 0xB66; 0xBE6;
    0xC66; 0xCE6; 0xD66; 0xDE6; 0xE50; 0xED0; 0xF20; 0x1040; 0x1090; 0x17E0;
    0x1810; 0x1946; 0x19D0; 0x1A80; 0x1A90; 0x1B50; 0x1BB0; 0x1C40; 0x1C50;
    0xA620; 0xA8D0; 0xA900; 0xA9D0; 0xA9F0; 0xAA50; 0xABF0; 0xFF10;
    0x104A0; 0x10D30; 0x11066; 0x110F0; 0x11136; 0x111D0; 0x112F0; 0x11450;
    0x114D0; 0x11650; 0x116C0; 0x11730; 0x118E0; 0x11950; 0x11C50; 0x11D50;
    0x11DA0; 0x11F50; 0x16A60; 0x16AC0; 0x16B50;
    0x1D7CE; 0x1D7D8; 0x1D7E2; 0x1D7EC; 0x1D7F6;
    0x1E140; 0x1E2F0; 0x1E4F0; 0x1E950; 0x1FBF0 ]%N.

(** The characters that have a digit value but no decimal value
    (Numeric_Type=Digit): superscripts, subscripts, circled digits and the
    like, as inclusive ranges. *)
Definition digit_only_ranges : list (N * N) :=
  [ (0xB2, 0xB3); (0xB9, 0xB9); (0x1369, 0x1371); (0x19DA, 0x19DA);
    (0x2070, 0x2070); (0x2074, 0x2079); (0x2080, 0x2089); (0x2460, 0x2468);
    (0x2474, 0x247C); (0x2488, 0x2490); (0x24EA, 0x24EA); (0x24F5, 0x24FD);
    (0x24FF, 0x24FF); (0x2776, 0x277E); (0x2780, 0x2788); (0x278A, 0x2792);
    (0x10A40, 0x10A43); (0x10E60, 0x10E68); (0x11052, 0x1105A);
    (0x1F100, 0x1F10A) ]%N.

(** The decimal value of a character, when it has one. *)
Definition decimal_value (c : char) : option N :=
  match find (fun z => (z <=? c) && (c <? z + 10))%N decimal_zeros with
  | Some z => Some (c - z)%N
  | None => None
  end.

Definition isdecimal_char (c : char) : bool :=
  match decimal_value c with Some _ => true | None => false end.

(** [str.isdigit] on one character: a decimal or a digit value. *)
Definition isdigit_char (c : char) : bool :=
  isdecimal_char c ||
  existsb (fun r => (fst r <=? c) && (c <=? snd r))%N digit_only_ranges.

(** [s.isdigit()]: every character is a digit and there is at least one. *)
Definition isdigit (s : str) : bool :=
  match s with
  | [] => false
  | _ => forallb isdigit_char s
  end.

(** [s.replace(old, new)] for a one-character [old]. *)
Definition replace (old : char) (new : str) (s : str) : str :=
  flat_map (fun c => if (c =? old)%N then new else [c]) s.

Fixpoint lstrip (s : str) : str :=
  match s with
  | c :: r => if isspace c then lstrip r else s
  | [] => []
  end.

Definition rstrip (s : str) : str := rev (lstrip (rev s)).

(** [s.strip()] *)
Definition strip (s : str) : str := rstrip (lstrip s).

(** The digits of [int(s)] after the sign: decimal characters, with single
    underscores allowed between two digits.  [acc] is the value read so
    far, [last] tells whether the previous character was a digit. *)
Fixpoint int_digits (s : str) (acc : N) (last : bool) : option N :=
  match s with
  | [] => if last then Some acc else None
  | c :: r =>
      if (c =? 0x5F)%N then
        if last then int_digits r acc false else None
      else
        match decimal_value c with
        | Some d => int_digits r (10 * acc + d)%N true
        | None => None
        end
  end.

(** [int(s)] in base ten: surrounding whitespace is dropped, one sign is
    accepted, and anything that is not a decimal literal is a
    [ValueError].  (The interpreter's configurable cap on the number of
    digits is not part of this model.) *)
Definition to_int (s : str) : result Z :=
  let t := strip s in
  let '(neg, body) :=
    match t with
    | c :: r =>
        if (c =? 0x2D)%N then (true, r)
        else if (c =? 0x2B)%N then (false, r)
        else (false, t)
    | [] => (false, t)
    end in
  match int_digits body 0%N false with
  | Some v => Ok (if neg then - Z.of_N v else Z.of_N v)
  | None => Raise ValueError
  end.

(** The ten characters [str] writes an integer with. *)
Definition ascii_digit (c : char) : Prop := (0x30 <= c <= 0x39)%N.

(** The characters of a decimal numeral. *)
Fixpoint uint_chars (d : Decimal.uint) : str :=
  match d with
  | Decimal.Nil => []
  | Decimal.D0 d => 0x30%N :: uint_chars d
  | Decimal.D1 d => 0x31%N :: uint_chars d
  | Decimal.D2 d => 0x32%N :: uint_chars d
  | Decimal.D3 d => 0x33%N :: uint_chars d
  | Decimal.D4 d => 0x34%N :: uint_chars d
  | Decimal.D5 d => 0x35%N :: uint_chars d
  | Decimal.D6 d => 0x36%N :: uint_chars d
  | Decimal.D7 d => 0x37%N :: uint_chars d
  | Decimal.D8 d => 0x38%N :: uint_chars d
  | Decimal.D9 d => 0x39%N :: uint_chars d
  end.

Definition digits_of_N (n : N) : str := uint_chars (N.to_uint n).

Definition minus_sign (z : Z) : str := if z <? 0 then [0x2D%N] else [].

(** [str(z)], which is also [f"{z}"]. *)
Definition of_int (z : Z) : str := minus_sign z ++ digits_of_N (Z.abs_N z).

(** Grouping by thousands, on the digits taken from the least significant
    one: a comma goes before every fourth, seventh, ... digit. *)
Fixpoint group3 (ds : str) (k : nat) : str :=
  match ds with
  | [] => []
  | d :: r =>
      match k with
      | O => comma :: d :: group3 r 2
      | S k' => d :: group3 r k'
      end
  end.

(** [f"{z:,d}"] *)
Definition format_comma_d (z : Z) : str :=
  minus_sign z ++ rev (group3 (rev (digits_of_N (Z.abs_N z))) 3).

End PyStr.
Export PyStr.

(** ** Utility functions *)

(** [parse_int_with_commas], main.py lines 18-21. *)
Definition parse_int_with_commas (text : str) : result Z :=
  let text := strip (replace comma [] text) in
  if isdigit text then to_int text else Ok 0.

(** Indexing a list with a Python integer: negative indices count from the
    end, anything out of range is an [IndexError]. *)
Definition py_index {A} (l : list A) (n : Z) : result A :=
  let i := if n <? 0 then n + Z.of_nat (length l) else n in
  if i <? 0 then Raise IndexError
  else match l !! Z.to_nat i with
       | Some x => Ok x
       | None => Raise IndexError
       end.

Definition ordinals : list str :=
  map lit ["first"; "second"; "third"; "fourth"; "fifth";
           "sixth"; "seventh"; "eighth"; "ninth"; "tenth"]%string.

(** [ordinal], main.py lines 23-27. *)
Definition ordinal (n : Z) : result str :=
  if n <? Z.of_nat (length ordinals) then py_index ordinals n
  else Ok (of_int (n + 1) ++ lit "th").

(** ** Python floats *)

Module PyFloat.

Local Open Scope result_scope.

(** IEEE 754 binary64. *)
Definition prec : Z := 53.
Definition emax : Z := 1024.
Definition float := spec_float.

(** An integer as an unrounded significand with exponent zero. *)
Definition exact_int (z : Z) : float :=
  match z with
  | Z0 => S754_zero false
  | Zpos p => S754_finite false p 0
  | Zneg p => S754_finite true p 0
  end.

(** Conversions and divisions of integers raise [OverflowError] where a
    float operation would give an infinity. *)
Definition finite_or_overflow (x : float) : result float :=
  match x with
  | S754_infinity _ => Raise OverflowError
  | _ => Ok x
  end.

(** [float(z)]: the nearest float, ties to even. *)
Definition of_int (z : Z) : result float :=
  finite_or_overflow (binary_normalize prec emax z 0 false).

(** [a / b] on two integers: the correctly rounded quotient. *)
Definition int_truediv (a b : Z) : result float :=
  if b =? 0 then Raise ZeroDivisionError
  else finite_or_overflow (SFdiv prec emax (exact_int a) (exact_int b)).

(** [x * n] for a float [x] and an integer [n]: [n] is converted first. *)
Definition mul_int (x : float) (n : Z) : result float :=
  let* y := of_int n in Ok (SFmul prec emax x y).

(** [m / 2^k] rounded to the nearest integer, ties to the even one. *)
Definition round_half_even (m : Z) (k : positive) : Z :=
  let q := m / 2 ^ Zpos k in
  let r := m mod 2 ^ Zpos k in
  let h := 2 ^ (Zpos k - 1) in
  if r <? h then q
  else if h <? r then q + 1
  else if Z.even q then q else q + 1.

(** [round(x)] with one argument: an [int]. *)
Definition round (x : float) : result Z :=
  match x with
  | S754_nan => Raise ValueError
  | S754_infinity _ => Raise OverflowError
  | S754_zero _ => Ok 0
  | S754_finite s m e =>
      let a := match e with
               | Z0 => Zpos m
               | Zpos _ => Zpos m * 2 ^ e
               | Zneg k => round_half_even (Zpos m) k
               end in
      Ok (if s then - a else a)
  end.

(** The rational a finite float stands for. *)
Definition value (x : float) : Q :=
  match x with
  | S754_finite s m e =>
      let n := if s then Zneg m else Zpos m in
      match e with
      | Z0 => inject_Z n
      | Zpos _ => inject_Z (n * 2 ^ e)
      | Zneg k => Qmake n (2 ^ k)
      end
  | _ => 0%Q
  end.

End PyFloat.

(** ** Configuration and constants (main.py lines 10-13) *)

Definition FONT_BOOKMAN_REGULAR : str := lit "BOOKOS.TTF".
Definition FONT_BOOKMAN_BOLD : str := lit "BOOKOSB.TTF".
Definition LOGO_PATH : str := lit "ashi_logo.jpg".
Definition CURRENCY_SYMBOL : str := [0x20AC%N].

(** ** The invoice data *)

Module Item.

Record t := mk { description : str; price : Z; paid : Z }.

End Item.

Module Payment.

Record t := mk {
  name : str;
  date : str;
  percentage : Z;
  amount : Z;
  description : str
}.

(** [pay["percentage"] = v] *)
Definition set_percentage (v : Z) (p : t) : t :=
  mk (name p) (date p) v (amount p) (description p).

(** [pay["amount"] = v] *)
Definition set_amount (v : Z) (p : t) : t :=
  mk (name p) (date p) (percentage p) v (description p).

End Payment.

Record InvoiceData := mkInvoiceData {
  invoice_number : str;
  invoice_date : str;
  client_name : str;
  country : str;
  phone : str;
  items : list Item.t;
  vat : Z;
  payments : list Payment.t
}.

Definition set_payments (ps : list Payment.t) (d : InvoiceData) : InvoiceData :=
  mkInvoiceData (invoice_number d) (invoice_date d) (client_name d) (country d)
                (phone d) (items d) (vat d) ps.

(** ** The FPDF object and the Streamlit output *)

(** How [cell] is told to move on: [new_x="LMARGIN", new_y="NEXT"], or the
    older [ln] argument. *)
Inductive cell_next := NewXY | LnArg (n : Z).

(** The calls made on the FPDF object.  Lengths are in millimetres. *)
Inductive pdf_op :=
| AddPage
| SetAutoPageBreak (auto : bool) (margin : Z)
| AddFont (family style fname : str) (uni : bool)
| SetFont (family style : str) (size : Z)
| SetMargins (left top right : Z)
| Image (fname : str) (x y w : Q)
| SetX (x : Q)
| SetY (y : Q)
| SetXY (x y : Q)
| Cell (w h : Z) (txt : str) (border : Z) (next : cell_next) (align : str)
| MultiCell (w h : Z) (txt : str) (border : Z) (align : str)
| Ln (h : Z)
| Line (x1 y1 x2 y2 : Q)
| Write (h : Z) (txt : str)
| Output.

(** The rendered document is opaque: it is identified with the calls that
    produced it. *)
Definition document := list pdf_op.

Inductive st_arg := SStr (s : str) | SBool (b : bool).

Inductive st_event :=
| StWrite (args : list st_arg)
| StWarning (msg : str)
| StError (msg : str)
(** [st.error(f"{msg}{e}")] for a caught exception [e] *)
| StErrorExn (msg : str) (e : exn).

(** ** The environment *)

Inductive file_state := Absent | Unreadable | Readable.

Record Env := mkEnv {
  (** the files next to the script *)
  file : str -> file_state;
  (** [os.getcwd()] *)
  cwd : str;
  (** the drawing calls the installed FPDF refuses, and how *)
  fpdf_rejects : pdf_op -> option exn;
  (** the vertical position of the cursor after a history of calls *)
  cursor_y : list pdf_op -> Q
}.

(** [os.path.exists] *)
Definition path_exists (env : Env) (p : str) : bool :=
  match file env p with Absent => false | _ => true end.

Definition load_fault (env : Env) (op : pdf_op) (fname : str) : option exn :=
  match file env fname with
  | Absent => Some FileNotFoundError
  | Unreadable => Some RuntimeError
  | Readable => fpdf_rejects env op
  end.

(** The exception a call on the FPDF object ends with, if any.  Calls that
    only set the page geometry or move the cursor always succeed. *)
Definition fault (env : Env) (op : pdf_op) : option exn :=
  match op with
  | AddFont _ _ fname _ => load_fault env op fname
  | Image fname _ _ _ => load_fault env op fname
  | AddPage | SetAutoPageBreak _ _ | SetMargins _ _ _
  | SetX _ | SetY _ | SetXY _ _ | Ln _ => None
  | _ => fpdf_rejects env op
  end.

(** ** The monad: state and exceptions *)

Record World := mkWorld {
  pdf : list pdf_op;
  st_log : list st_event;
  invoice_data : InvoiceData
}.

Definition M (A : Type) : Type := World -> World * result A.

Definition ret {A} (a : A) : M A := fun w => (w, Ok a).

Definition bind {A B} (m : M A) (k : A -> M B) : M B :=
  fun w => match m w with
           | (w', Ok a) => k a w'
           | (w', Raise e) => (w', Raise e)
           end.

Definition raise {A} (e : exn) : M A := fun w => (w, Raise e).

Definition lift {A} (r : result A) : M A := fun w => (w, r).

(** [try: body except Exception as e: handler e] *)
Definition try_except {A} (body : M A) (handler : exn -> M A) : M A :=
  fun w => match body w with
           | (w', Raise e) => handler e w'
           | r => r
           end.

Declare Scope M_scope.
Delimit Scope M_scope with M.
Notation "x <- m ;; k" := (bind m (fun x => k))
  (at level 100, m at next level, right associativity) : M_scope.
Notation "m ;; k" := (bind m (fun _ => k))
  (at level 100, right associativity) : M_scope.
Local Open Scope M_scope.

(** [for x in l: body x] *)
Fixpoint for_each {A} (l : list A) (body : A -> M unit) : M unit :=
  match l with
  | [] => ret tt
  | x :: r => body x ;; for_each r body
  end.

(** A loop that carries local variables [acc]. *)
Fixpoint for_fold {A S} (l : list A) (body : S -> A -> M S) (acc : S) : M S :=
  match l with
  | [] => ret acc
  | x :: r => acc' <- body acc x ;; for_fold r body acc'
  end.

Definition enumerate {A} (l : list A) : list (nat * A) :=
  combine (seq 0 (length l)) l.

Definition new_pdf : M unit :=
  fun w => (mkWorld [] (st_log w) (invoice_data w), Ok tt).

(** One call on the FPDF object. *)
Definition emit (env : Env) (op : pdf_op) : M unit :=
  fun w => match fault env op with
           | Some e => (w, Raise e)
           | None => (mkWorld (pdf w ++ [op]) (st_log w) (invoice_data w), Ok tt)
           end.

Definition get_y (env : Env) : M Q :=
  fun w => (w, Ok (cursor_y env (pdf w))).

Definition st_emit (ev : st_event) : M unit :=
  fun w => (mkWorld (pdf w) (st_log w ++ [ev]) (invoice_data w), Ok tt).

Definition get_data : M InvoiceData := fun w => (w, Ok (invoice_data w)).

(** [invoice_data["payments"][idx]] *)
Definition get_payment (idx : nat) : M Payment.t :=
  fun w => match payments (invoice_data w) !! idx with
           | Some p => (w, Ok p)
           | None => (w, Raise IndexError)
           end.

(** [invoice_data["payments"][idx][key] = v], through [upd] *)
Definition update_payment (idx : nat) (upd : Payment.t -> Payment.t) : M unit :=
  fun w =>
    let ps := payments (invoice_data w) in
    match ps !! idx with
    | Some p =>
        (mkWorld (pdf w) (st_log w)
                 (set_payments (<[idx := upd p]> ps) (invoice_data w)), Ok tt)
    | None => (w, Raise IndexError)
    end.

(** [a or b] on strings *)
Definition str_or (a b : str) : str :=
  match a with [] => b | _ => a end.

(** [safe_cell], main.py lines 29-46.  No caller passes [fill] or [link]. *)
Definition safe_cell (env : Env) (w h : Z) (txt : str) (border : Z)
    (new_line : bool) (align : str) : M unit :=
  try_except
    (if new_line then emit env (Cell w h txt border NewXY align)
     else emit env (Cell w h txt border (LnArg 0) align))
    (fun e =>
       match e with
       | TypeError =>
           if new_line then emit env (Cell w h txt border (LnArg 1) align)
           else emit env (Cell w h txt border (LnArg 0) align)
       | _ => raise e
       end).

(** [init_pdf], main.py lines 51-70.  The FPDF object is the [pdf] field of
    the world; the result tells whether the function returned it. *)
Definition init_pdf (env : Env) : M (option unit) :=
  new_pdf ;;
  emit env AddPage ;;
  emit env (SetAutoPageBreak true 15) ;;
  st_emit (StWrite [SStr (lit "### Font Path Debugging")]) ;;
  st_emit (StWrite [SStr (lit "Current working directory:"); SStr (cwd env)]) ;;
  st_emit (StWrite [SStr (lit "FONT_BOOKMAN_REGULAR path:");
                    SStr FONT_BOOKMAN_REGULAR; SStr (lit "Exists?");
                    SBool (path_exists env FONT_BOOKMAN_REGULAR)]) ;;
  st_emit (StWrite [SStr (lit "FONT_BOOKMAN_BOLD path:");
                    SStr FONT_BOOKMAN_BOLD; SStr (lit "Exists?");
                    SBool (path_exists env FONT_BOOKMAN_BOLD)]) ;;
  try_except
    (emit env (AddFont (lit "Bookman") [] FONT_BOOKMAN_REGULAR true) ;;
     emit env (AddFont (lit "Bookman") (lit "B") FONT_BOOKMAN_BOLD true) ;;
     emit env (SetFont (lit "Bookman") [] 10) ;;
     ret (Some tt))
    (fun e =>
       st_emit (StErrorExn (lit "PDF initialization failed: ") e) ;;
       ret None).

(** ** PDF generation: [create_invoice_pdf], main.py lines 75-311 *)

Section Composer.

Variable env : Env.

Local Abbreviation cell := (safe_cell env).
Local Abbreviation call := (emit env).

(** [f"{z:,d} {CURRENCY_SYMBOL}"] *)
Definition money (z : Z) : str := format_comma_d z ++ lit " " ++ CURRENCY_SYMBOL.

(** Lines 93-125: logo, company block, invoice number and date, client. *)
Definition header : M unit :=
  (if path_exists env LOGO_PATH
   then call (Image LOGO_PATH ((210 - 30) / 2)%Q 10%Q 30%Q)
   else st_emit (StWarning (lit "Logo file not found: " ++ LOGO_PATH))) ;;
  call (SetY 30%Q) ;;
  call (SetFont (lit "Bookman") (lit "B") 10) ;;
  call (SetXY 10%Q 30%Q) ;;
  cell 60 5 (lit "ASHI STUDIO SAS") 0 true [] ;;
  call (SetFont (lit "Bookman") [] 9) ;;
  call (SetX 10%Q) ;;
  cell 60 5 (lit "9 AVENUE HOCHE") 0 true [] ;;
  call (SetX 10%Q) ;;
  cell 60 5 (lit "75008 PARIS, FRANCE") 0 true [] ;;
  call (SetXY 140%Q 30%Q) ;;
  d <- get_data ;;
  let inv_text := lit "Invoice Number: " ++ invoice_number d ++ [10%N; 10%N] ++
                  lit "Date: " ++ invoice_date d in
  call (MultiCell 60 5 inv_text 0 (lit "R")) ;;
  call (Ln 10) ;;
  call (SetFont (lit "Bookman") (lit "B") 10) ;;
  cell 0 5 (lit "Client Information") 0 true [] ;;
  call (SetFont (lit "Bookman") [] 10) ;;
  cell 0 5 (lit "Name: " ++ client_name d) 0 true [] ;;
  cell 0 5 (lit "Country: " ++ country d) 0 true [] ;;
  cell 0 5 (lit "Phone: " ++ phone d) 0 true [] ;;
  call (Ln 5).

Definition col_desc_w : Z := 70.
Definition col_price_w : Z := 50.
Definition col_paid_w : Z := 60.

(** Lines 140-149: one row of the items table; the local variables are
    [(sum_price, sum_paid)]. *)
Definition item_row (sums : Z * Z) (item : Item.t) : M (Z * Z) :=
  let '(sum_price, sum_paid) := sums in
  let desc := Item.description item in
  let price := Item.price item in
  let paid := Item.paid item in
  let sum_price := sum_price + price in
  let sum_paid := sum_paid + paid in
  cell col_desc_w 6 desc 1 false (lit "L") ;;
  cell col_price_w 6 (money price) 1 false (lit "L") ;;
  cell col_paid_w 6 (money paid) 1 true (lit "R") ;;
  ret (sum_price, sum_paid).

(** Lines 128-171: the items table, its sums, VAT and total.  The result is
    [sum_price], which the payment schedule uses. *)
Definition items_table : M Z :=
  call (SetFont (lit "Bookman") (lit "B") 10) ;;
  cell col_desc_w 6 (lit "DESCRIPTION") 1 false (lit "C") ;;
  cell col_price_w 6 (lit "TOTAL PRICE") 1 false (lit "C") ;;
  cell col_paid_w 6 (lit "TO BE PAID") 1 true (lit "C") ;;
  call (SetFont (lit "Bookman") [] 10) ;;
  d <- get_data ;;
  sums <- for_fold (items d) item_row (0, 0) ;;
  let '(sum_price, sum_paid) := sums in
  cell col_desc_w 6 [] 0 false [] ;;
  cell col_price_w 6 (money sum_price) 0 false (lit "L") ;;
  cell col_paid_w 6 (money sum_paid) 0 true (lit "R") ;;
  d <- get_data ;;
  let vat := vat d in
  let final_total := sum_paid + vat in
  let label_w := 20 in
  let val_w := col_paid_w - label_w in
  cell col_desc_w 6 [] 0 false [] ;;
  cell col_price_w 6 [] 0 false [] ;;
  cell label_w 6 (lit "VAT") 0 false (lit "L") ;;
  cell val_w 6 (format_comma_d vat) 0 true (lit "R") ;;
  cell col_desc_w 6 [] 0 false [] ;;
  cell col_price_w 6 [] 0 false [] ;;
  cell label_w 6 (lit "Total") 0 false (lit "L") ;;
  cell val_w 6 (money final_total) 0 true (lit "R") ;;
  call (Ln 1) ;;
  ret sum_price.

(** [int(round(amt / sum_price_local * 100))] *)
Definition percentage_of (amt sum_price_local : Z) : result Z :=
  (let* q := PyFloat.int_truediv amt sum_price_local in
   let* x := PyFloat.mul_int q 100 in
   PyFloat.round x)%result.

(** [int(round(perc / 100 * sum_price_local))] *)
Definition amount_of (perc sum_price_local : Z) : result Z :=
  (let* q := PyFloat.int_truediv perc 100 in
   let* x := PyFloat.mul_int q sum_price_local in
   PyFloat.round x)%result.

(** Lines 188-191: the resolved [(perc, amt)]. *)
Definition resolve (sum_price_local perc amt : Z) : result (Z * Z) :=
  if (perc =? 0) && negb (amt =? 0) then
    (let* perc := percentage_of amt sum_price_local in Ok (perc, amt))%result
  else if (amt =? 0) && negb (perc =? 0) then
    (let* amt := amount_of perc sum_price_local in Ok (perc, amt))%result
  else Ok (perc, amt).

(** Lines 183-199: one row of the payment schedule. *)
Definition payment_row (sum_price_local : Z) (idx : nat) : M unit :=
  pay <- get_payment idx ;;
  let pay_name := str_or (Payment.name pay) (lit "N/A") in
  let pay_date := str_or (Payment.date pay) [] in
  let perc := Payment.percentage pay in
  let amt := Payment.amount pay in
  pa <- lift (resolve sum_price_local perc amt) ;;
  let '(perc, amt) := pa in
  cell 60 6 pay_name 1 false (lit "L") ;;
  cell 40 6 pay_date 1 false (lit "L") ;;
  cell 40 6 (format_comma_d perc ++ lit "%") 1 false (lit "L") ;;
  cell 40 6 (money amt) 1 true (lit "L") ;;
  update_payment idx (Payment.set_percentage perc) ;;
  update_payment idx (Payment.set_amount amt).

(** Lines 182-199: the loop over [enumerate(invoice_data["payments"])]. *)
Definition payment_rows (sum_price_local : Z) : M unit :=
  d <- get_data ;;
  for_each (seq 0 (length (payments d))) (payment_row sum_price_local).

(** Lines 174-204: the payment schedule and the rule below it. *)
Definition payment_schedule (sum_price : Z) : M unit :=
  call (SetFont (lit "Bookman") (lit "B") 10) ;;
  cell 60 6 (lit "PAYMENT") 1 false (lit "C") ;;
  cell 40 6 (lit "DATE") 1 false (lit "C") ;;
  cell 40 6 (lit "PERCENTAGE") 1 false (lit "C") ;;
  cell 40 6 (lit "AMOUNT") 1 true (lit "C") ;;
  call (SetFont (lit "Bookman") [] 10) ;;
  let sum_price_local := sum_price in
  payment_rows sum_price_local ;;
  call (Ln 1) ;;
  y_line <- get_y env ;;
  call (Line 10%Q y_line 200%Q y_line) ;;
  call (Ln 1).

(** Lines 207-218: [print_bank_column]; the local variable is [current_y]. *)
Definition print_bank_column (start_x start_y : Q) (col_width : Z)
    (data : list (str * str)) (title_size detail_size : Z) : M Q :=
  for_fold data
    (fun current_y '(title, detail) =>
       call (SetXY start_x current_y) ;;
       call (SetFont (lit "Bookman") (lit "BU") title_size) ;;
       call (MultiCell col_width 5 title 0 (lit "L")) ;;
       current_y <- get_y env ;;
       call (SetXY start_x current_y) ;;
       call (SetFont (lit "Bookman") [] detail_size) ;;
       call (MultiCell col_width 5 detail 0 (lit "L")) ;;
       get_y env)
    start_y.

Definition col1_data : list (str * str) :=
  [ (lit "BENEFICIARY:",
     lit "ASHI STUDIO SAS" ++ [10%N] ++ lit "9 AVENUE HOCHE" ++ [10%N] ++
     lit "75008 PARIS, FRANCE");
    (lit "REGISTRATION number:", lit "922 266 788 00012");
    (lit "VAT:", lit "FR21922266788") ].
Definition col2_data : list (str * str) :=
  [ (lit "BANK NAME:", lit "BNP PARIBAS");
    (lit "AGENCY ADDRESS:", lit "Agency Paris Turenne");
    (lit "AGENCY CODE:", lit "00823") ].
Definition col3_data : list (str * str) :=
  [ (lit "ACCOUNT CURRENCY:", lit "EUR (Euro)");
    (lit "IBAN:", lit "FR76 3000 4008 2300 0108 9656 803");
    (lit "RIB:", lit "03") ].
Definition col4_data : list (str * str) :=
  [ (lit "SWIFT:", lit "BNPAFRPPXXX");
    (lit "ACCOUNT N" ++ [0xB0%N] ++ lit ":", lit "00010896568");
    (lit "BANK CODE:", lit "30004") ].

(** Lines 220-259: [example_bank_details_4columns]. *)
Definition example_bank_details_4columns : M unit :=
  call (SetFont (lit "Bookman") (lit "B") 10) ;;
  cell 0 5 (lit "Bank Transfer Details:") 0 true [] ;;
  call (Ln 2) ;;
  let start_x := 10%Q in
  start_y <- get_y env ;;
  let col_width := 45 in
  let col_spacing := 10 in
  let step := inject_Z (col_width + col_spacing) in
  col1_end <- print_bank_column start_x start_y col_width col1_data 8 8 ;;
  col2_end <- print_bank_column (start_x + step)%Q start_y col_width col2_data 8 8 ;;
  col3_end <- print_bank_column (start_x + 2 * step)%Q start_y col_width col3_data 8 8 ;;
  col4_end <- print_bank_column (start_x + 3 * step)%Q start_y col_width col4_data 8 8 ;;
  let final_y := Qmax (Qmax (Qmax col1_end col2_end) col3_end) col4_end in
  call (SetY (final_y + 5)%Q) ;;
  y_line <- get_y env ;;
  call (Line 10%Q y_line 200%Q y_line) ;;
  call (Ln 3).

Definition bullet : str := [0x2022%N].

(** Lines 269-279: the sentence of one payment. *)
Definition payment_term (ip : nat * Payment.t) : M unit :=
  let '(i, pay) := ip in
  ord <- lift (ordinal (Z.of_nat i)) ;;
  call (Write 5 (bullet ++ lit " A " ++ ord ++ lit " payment of ")) ;;
  call (SetFont (lit "Bookman") (lit "B") 8) ;;
  call (Write 5 (of_int (Payment.percentage pay) ++ lit "%")) ;;
  call (SetFont (lit "Bookman") [] 8) ;;
  call (Write 5 (lit " of the total price is required")) ;;
  (match Payment.name pay with
   | [] => ret tt
   | _ => call (Write 5 (lit " as " ++ Payment.name pay))
   end) ;;
  (match Payment.description pay with
   | [] => ret tt
   | _ => call (Write 5 (lit " (" ++ Payment.description pay ++ lit ")"))
   end) ;;
  call (Write 5 [10%N]).

Definition standard_terms : list str :=
  map (fun s => bullet ++ lit s)
  [ " As per the company policy, once a dress is purchased, it is not subject to return or refund";
    " Once the purchase details and samples are approved by the client, the dress is not subject to any changes";
    " The delivery date is scheduled as per the agreement with the sales team upon order confirmation; in case of any date change or event cancellation, Ashi Studio will be working according to the initial date provided";
    " Any addition to the dress, requested by the client, will be charged separately";
    " After doing the final fitting and dress adjustments, once the dress is received, any changes requested are not covered by Ashi Studio and are subject to additional payments";
    " Fittings and delivery will be in the client country of origin or in AshI STUDIO showroom in Paris; any changes in the destination will be at the cost of the client"
  ]%string.

(** Lines 289-294 *)
Definition standard_term (it : nat * str) : M unit :=
  let '(idx, term) := it in
  (if (idx =? 0)%nat || (idx =? 1)%nat
   then call (SetFont (lit "Bookman") (lit "B") 8)
   else call (SetFont (lit "Bookman") [] 8)) ;;
  call (Write 5 (term ++ [10%N])).

(** Lines 269-279: one sentence per payment, read from [invoice_data]
    as the payment schedule left it. *)
Definition payment_terms : M unit :=
  d <- get_data ;;
  for_each (enumerate (payments d)) payment_term.

(** Lines 281-303: the standard terms, a rule, and the closing lines. *)
Definition closing : M unit :=
  for_each (enumerate standard_terms) standard_term ;;
  call (Ln 3) ;;
  y_line <- get_y env ;;
  call (Line 10%Q y_line 200%Q y_line) ;;
  call (Ln 3) ;;
  call (SetFont (lit "Bookman") (lit "B") 8) ;;
  cell 0 5 (lit "THANK YOU FOR CHOOSING ASHI STUDIO") 0 true (lit "C") ;;
  cell 0 5 (lit "WWW.ASHISTUDIO.COM") 0 true (lit "C").

(** Lines 264-303: terms and conditions. *)
Definition terms_and_conditions : M unit :=
  call (SetFont (lit "Bookman") (lit "B") 10) ;;
  cell 0 5 (lit "Terms & Conditions") 0 true [] ;;
  call (Ln 3) ;;
  call (SetFont (lit "Bookman") [] 8) ;;
  payment_terms ;;
  closing.

(** [bytes(pdf.output(dest="S"))] *)
Definition output : M document :=
  fun w => match fault env Output with
           | Some e => (w, Raise e)
           | None => (w, Ok (pdf w))
           end.

(** Lines 92-306: the body of the [try]. *)
Definition compose : M document :=
  header ;;
  sum_price <- items_table ;;
  payment_schedule sum_price ;;
  example_bank_details_4columns ;;
  terms_and_conditions ;;
  output.

Definition create_invoice_pdf : M (option document) :=
  p <- init_pdf env ;;
  match p with
  | None => ret None
  | Some _ =>
      call (SetMargins 10 10 10) ;;
      call (SetAutoPageBreak true 10) ;;
      try_except
        (doc <- compose ;; ret (Some doc))
        (fun e =>
           st_emit (StErrorExn (lit "Failed to generate PDF: ") e) ;;
           ret None)
  end.

End Composer.

(** A generation request: a fresh FPDF object, an empty page of Streamlit
    output, and the caller's [invoice_data]. *)
Definition request (d : InvoiceData) : World := mkWorld [] [] d.

(** ** The "Generate Invoice" button, main.py lines 400-431 *)

(** [sum(f(x) for x in l)] *)
Definition py_sum {A} (f : A -> Z) (l : list A) : Z :=
  fold_left (fun acc x => acc + f x) l 0.

(** Lines 408-411: the loop stops at the first entry with nothing set. *)
Fixpoint check_entries (ps : list Payment.t) (validation_errors : list str)
    : list str :=
  match ps with
  | [] => validation_errors
  | p :: r =>
      if (Payment.percentage p =? 0) && (Payment.amount p =? 0)
      then validation_errors ++
           [lit "Each payment must have a non-zero percentage or a non-zero amount."]
      else check_entries r validation_errors
  end.

(** Lines 401-411 *)
Definition validate (sum_price : Z) (payments : list Payment.t) : list str :=
  let total_percent := py_sum Payment.percentage payments in
  let total_amount := py_sum Payment.amount payments in
  let validation_errors := [] in
  let validation_errors :=
    if negb ((total_percent =? 100) || (total_amount =? sum_price))
    then validation_errors ++
         [lit "Either sum of payment percentages must be 100%, or sum of payment amounts must equal total price ("
          ++ money sum_price ++ lit ")."]
    else validation_errors in
  check_entries payments validation_errors.

(** What a click does: either the errors are shown and nothing is
    generated, or [create_invoice_pdf] is called and returns [pdf_bytes]. *)
Inductive click :=
| Rejected (validation_errors : list str)
| Generated (pdf_bytes : option document).

(** The form variables are those of the script: [form] holds
    [invoice_number], ..., [items], [vat_val] and [payments], from which
    line 417 builds [invoice_data]. *)
Definition generate_invoice (env : Env) : M click :=
  form <- get_data ;;
  let sum_price := py_sum Item.price (items form) in
  match validate sum_price (payments form) with
  | [] =>
      pdf_bytes <- create_invoice_pdf env ;;
      ret (Generated pdf_bytes)
  | validation_errors =>
      for_each validation_errors (fun err => st_emit (StError err)) ;;
      ret (Rejected validation_errors)
  end.

(** [st.session_state.pdf_data] after the click. *)
Definition pdf_data (invoice_number : str) (c : click) : option (document * str) :=
  match c with
  | Generated (Some (op :: doc)) => Some (op :: doc, invoice_number)
  | _ => None
  end.

(** ** Vocabulary of the statements *)

(** The sum of a field over a list. *)
Fixpoint sum_of {A} (f : A -> Z) (l : list A) : Z :=
  match l with
  | [] => 0
  | x :: r => f x + sum_of f r
  end.

(** The two checks of the caller: the plan adds up, in percentages or in
    amounts, and no entry is empty. *)
Definition plan_adds_up (its : list Item.t) (ps : list Payment.t) : Prop :=
  sum_of Payment.percentage ps = 100 \/
  sum_of Payment.amount ps = sum_of Item.price its.

Definition entry_set (p : Payment.t) : Prop :=
  Payment.percentage p <> 0 \/ Payment.amount p <> 0.

(** An entry with both fields given. *)
Definition resolved (p : Payment.t) : Prop :=
  Payment.percentage p <> 0 /\ Payment.amount p <> 0.

(** Derivation of one entry, in the words of the specification: a missing
    percentage is [round(amount / basePrice * 100)], a missing amount is
    [round(percentage / 100 * basePrice)], anything else stays. *)
Definition derive_entry (basePrice : Z) (p : Payment.t) : result Payment.t :=
  if decide (Payment.percentage p = 0 /\ Payment.amount p <> 0) then
    (let* v := percentage_of (Payment.amount p) basePrice in
     Ok (Payment.set_percentage v p))%result
  else if decide (Payment.amount p = 0 /\ Payment.percentage p <> 0) then
    (let* v := amount_of (Payment.percentage p) basePrice in
     Ok (Payment.set_amount v p))%result
  else Ok p.

(** Derivation of the entries in list order; the first failure ends it. *)
Fixpoint derive_all (basePrice : Z) (ps : list Payment.t)
    : result (list Payment.t) :=
  match ps with
  | [] => Ok []
  | p :: r =>
      (let* p' := derive_entry basePrice p in
       let* r' := derive_all basePrice r in
       Ok (p' :: r'))%result
  end.

(** [r] is an integer nearest to [v], the even one when two are. *)
Definition nearest_even (r : Z) (v : Q) : Prop :=
  (Qabs (inject_Z r - v) <= 1 # 2)%Q /\
  (Qabs (inject_Z r - v) == 1 # 2 -> Z.even r = true)%Q.

(** The call [safe_cell] ends up making when it succeeds. *)
Definition cell_op (env : Env) (w h : Z) (txt : str) (border : Z)
    (new_line : bool) (align : str) : pdf_op :=
  if new_line then
    match fault env (Cell w h txt border NewXY align) with
    | Some TypeError => Cell w h txt border (LnArg 1) align
    | _ => Cell w h txt border NewXY align
    end
  else Cell w h txt border (LnArg 0) align.

(** An FPDF that draws whatever it is asked to; it may be a version whose
    [cell] does not know [new_x] and [new_y]. *)
Definition well_behaved (env : Env) : Prop :=
  forall op,
    fpdf_rejects env op = None \/
    (fpdf_rejects env op = Some TypeError /\
     exists w h txt border align, op = Cell w h txt border NewXY align).

Definition fonts_readable (env : Env) : Prop :=
  file env FONT_BOOKMAN_REGULAR = Readable /\
  file env FONT_BOOKMAN_BOLD = Readable.

(** The row of the payment table for a resolved entry. *)
Definition payment_row_ops (env : Env) (p : Payment.t) : list pdf_op :=
  [ cell_op env 60 6 (str_or (Payment.name p) (lit "N/A")) 1 false (lit "L");
    cell_op env 40 6 (str_or (Payment.date p) []) 1 false (lit "L");
    cell_op env 40 6 (format_comma_d (Payment.percentage p) ++ lit "%") 1 false (lit "L");
    cell_op env 40 6 (money (Payment.amount p)) 1 true (lit "L") ].

(** The sentence of the terms section for the entry at index [i]. *)
Definition payment_term_ops (ord : str) (p : Payment.t) : list pdf_op :=
  [ Write 5 (bullet ++ lit " A " ++ ord ++ lit " payment of ");
    SetFont (lit "Bookman") (lit "B") 8;
    Write 5 (of_int (Payment.percentage p) ++ lit "%");
    SetFont (lit "Bookman") [] 8;
    Write 5 (lit " of the total price is required") ] ++
  match Payment.name p with
  | [] => []
  | _ => [Write 5 (lit " as " ++ Payment.name p)]
  end ++
  match Payment.description p with
  | [] => []
  | _ => [Write 5 (lit " (" ++ Payment.description p ++ lit ")")]
  end ++
  [ Write 5 [10%N] ].

(** The cells of one row of the items table. *)
Definition item_row_ops (env : Env) (item : Item.t) : list pdf_op :=
  [ cell_op env col_desc_w 6 (Item.description item) 1 false (lit "L");
    cell_op env col_price_w 6 (money (Item.price item)) 1 false (lit "L");
    cell_op env col_paid_w 6 (money (Item.paid item)) 1 true (lit "R") ].

(** The head of the items table. *)
Definition items_head_ops (env : Env) : list pdf_op :=
  [ SetFont (lit "Bookman") (lit "B") 10;
    cell_op env col_desc_w 6 (lit "DESCRIPTION") 1 false (lit "C");
    cell_op env col_price_w 6 (lit "TOTAL PRICE") 1 false (lit "C");
    cell_op env col_paid_w 6 (lit "TO BE PAID") 1 true (lit "C");
    SetFont (lit "Bookman") [] 10 ].

(** The three unbordered rows below the items: the sums, VAT, and the
    total. *)
Definition totals_ops (env : Env) (sum_price sum_paid vat final_total : Z)
    : list pdf_op :=
  [ cell_op env col_desc_w 6 [] 0 false [];
    cell_op env col_price_w 6 (money sum_price) 0 false (lit "L");
    cell_op env col_paid_w 6 (money sum_paid) 0 true (lit "R");
    cell_op env col_desc_w 6 [] 0 false [];
    cell_op env col_price_w 6 [] 0 false [];
    cell_op env 20 6 (lit "VAT") 0 false (lit "L");
    cell_op env 40 6 (format_comma_d vat) 0 true (lit "R");
    cell_op env col_desc_w 6 [] 0 false [];
    cell_op env col_price_w 6 [] 0 false [];
    cell_op env 20 6 (lit "Total") 0 false (lit "L");
    cell_op env 40 6 (money final_total) 0 true (lit "R");
    Ln 1 ].

(** The ordinal of an index of an enumeration. *)
Definition ordinal_word (i : nat) : str :=
  match ordinal (Z.of_nat i) with Ok s => s | Raise _ => [] end.

(** The sentences of the terms section for numbered entries. *)
Definition terms_ops (ips : list (nat * Payment.t)) : list pdf_op :=
  flat_map (fun ip => payment_term_ops (ordinal_word (fst ip)) (snd ip)) ips.

(** The head of the payment schedule. *)
Definition schedule_head_ops (env : Env) : list pdf_op :=
  [ SetFont (lit "Bookman") (lit "B") 10;
    cell_op env 60 6 (lit "PAYMENT") 1 false (lit "C");
    cell_op env 40 6 (lit "DATE") 1 false (lit "C");
    cell_op env 40 6 (lit "PERCENTAGE") 1 false (lit "C");
    cell_op env 40 6 (lit "AMOUNT") 1 true (lit "C");
    SetFont (lit "Bookman") [] 10 ].

(** Nothing but drawing and output: the data is as it was and the calls
    made so far are still there. *)
Definition frame (a b : World) : Prop :=
  invoice_data b = invoice_data a /\ exists l, pdf b = pdf a ++ l.

(** The calls made so far are still there, the new ones satisfy [P], and
    the output so far is still there. *)
Definition grows (P : pdf_op -> Prop) (a b : World) : Prop :=
  (exists l, pdf b = pdf a ++ l /\ Forall P l) /\
  (exists l, st_log b = st_log a ++ l).

(** What [init_pdf] says and draws when it returns the FPDF object. *)
Definition init_log (env : Env) : list st_event :=
  [ StWrite [SStr (lit "### Font Path Debugging")];
    StWrite [SStr (lit "Current working directory:"); SStr (cwd env)];
    StWrite [SStr (lit "FONT_BOOKMAN_REGULAR path:");
             SStr FONT_BOOKMAN_REGULAR; SStr (lit "Exists?");
             SBool (path_exists env FONT_BOOKMAN_REGULAR)];
    StWrite [SStr (lit "FONT_BOOKMAN_BOLD path:");
             SStr FONT_BOOKMAN_BOLD; SStr (lit "Exists?");
             SBool (path_exists env FONT_BOOKMAN_BOLD)] ].

Definition init_ops : list pdf_op :=
  [ AddPage; SetAutoPageBreak true 15;
    AddFont (lit "Bookman") [] FONT_BOOKMAN_REGULAR true;
    AddFont (lit "Bookman") (lit "B") FONT_BOOKMAN_BOLD true;
    SetFont (lit "Bookman") [] 10 ].

(** The world in which the body of the [try] starts. *)
Definition composing (env : Env) (w : World) : World :=
  mkWorld (init_ops ++ [SetMargins 10 10 10; SetAutoPageBreak true 10])
          (st_log w ++ init_log env) (invoice_data w).

(** The two diagnostics of a failed generation. *)
Definition init_failure : str := lit "PDF initialization failed: ".
Definition compose_failure : str := lit "Failed to generate PDF: ".


(** Two entries that differ at most in percentage and amount. *)
Definition same_labels (p q : Payment.t) : Prop :=
  Payment.name q = Payment.name p /\
  Payment.date q = Payment.date p /\
  Payment.description q = Payment.description p.

(** Only percentages and amounts have been written. *)
Definition relabelled (a b : World) : Prop :=
  let d := invoice_data a in
  let d' := invoice_data b in
  invoice_number d' = invoice_number d /\ invoice_date d' = invoice_date d /\
  client_name d' = client_name d /\ country d' = country d /\
  phone d' = phone d /\ items d' = items d /\ vat d' = vat d /\
  Forall2 same_labels (payments d) (payments d').

(** The calls that read no file and do not depend on the version of FPDF. *)
Definition is_plain (op : pdf_op) : bool :=
  match op with
  | AddFont _ _ _ _ | Image _ _ _ _ | Cell _ _ _ _ NewXY _ => false
  | _ => true
  end.

Definition is_image (op : pdf_op) : bool :=
  match op with Image _ _ _ _ => true | _ => false end.

(** [m] relates the world it starts in to the one it ends in by [R],
    whether it returns or raises. *)
Definition keeps {A} (R : World -> World -> Prop) (m : M A) : Prop :=
  forall w w' r, m w = (w', r) -> R w w'.

(** [m] returns, from every world. *)
Definition succeeds {A} (m : M A) : Prop :=
  forall w, exists w' a, m w = (w', Ok a).

(** The world after one more call, and after one more line of output. *)
Definition drawn (w : World) (ops : list pdf_op) : World :=
  mkWorld (pdf w ++ ops) (st_log w) (invoice_data w).

Definition said (w : World) (ev : st_event) : World :=
  mkWorld (pdf w) (st_log w ++ [ev]) (invoice_data w).

(** ** Sample inputs *)

(** Fonts in place, no logo, an FPDF that accepts every call. *)
Definition env_no_logo : Env :=
  mkEnv (fun f => if decide (f = LOGO_PATH) then Absent else Readable)
        (lit "/app") (fun _ => None) (fun _ => 0%Q).

(** The same, with an FPDF whose [cell] predates [new_x] and [new_y]. *)
Definition env_old_fpdf : Env :=
  mkEnv (fun _ => Readable) (lit "/app")
        (fun op => match op with
                   | Cell _ _ _ _ NewXY _ => Some TypeError
                   | _ => None
                   end)
        (fun _ => 0%Q).

(** The regular font is missing. *)
Definition env_no_font : Env :=
  mkEnv (fun f => if decide (f = FONT_BOOKMAN_REGULAR) then Absent else Readable)
        (lit "/app") (fun _ => None) (fun _ => 0%Q).

Definition sample_items : list Item.t :=
  [ Item.mk (lit "Item 1") 1000 500; Item.mk (lit "Item 2") 2000 1000 ].

Definition sample_invoice (its : list Item.t) (v : Z) (ps : list Payment.t)
    : InvoiceData :=
  mkInvoiceData (lit "369/2025") (lit "03/11/2026") (lit "Pr Noura Abdullah Faisal")
                (lit "Kuwait") (lit "+965 1234 5678") its v ps.

Definition pay (perc amt : Z) : Payment.t :=
  Payment.mk (lit "down payment") (lit "03-11-2026") perc amt [].

(** ** The form and the download, main.py lines 319-395 and 433-440 *)

(** What the widgets of one item hold: description, total price, to be
    paid. *)
Definition item_input : Type := str * str * str.

(** Lines 338-343: one item of the form. *)
Definition form_item (row : item_input) : result Item.t :=
  let '(desc, price_str, paid_str) := row in
  (let* price_val := parse_int_with_commas price_str in
   let* paid_val := parse_int_with_commas paid_str in
   Ok (Item.mk desc price_val paid_val))%result.

(** Lines 335-343: the loop that appends the items. *)
Fixpoint form_items (rows : list item_input) (items : list Item.t)
    : result (list Item.t) :=
  match rows with
  | [] => Ok items
  | row :: rest =>
      (let* item := form_item row in form_items rest (items ++ [item]))%result
  end.

(** What the widgets of one payment hold.  [pay_date] is the date as
    [strftime("%d-%m-%Y")] writes it, when the box of the date is ticked. *)
Record payment_input := mkPaymentInput {
  pay_name : str;
  pay_date : option str;
  perc_str : str;
  amt_str : str;
  pay_desc : str
}.

(** Lines 387-395: one payment of the form. *)
Definition form_payment (i : payment_input) : result Payment.t :=
  (let* perc_val := parse_int_with_commas (perc_str i) in
   let* amt_val := parse_int_with_commas (amt_str i) in
   Ok (Payment.mk (pay_name i)
                  (match pay_date i with Some d => d | None => [] end)
                  perc_val amt_val (pay_desc i)))%result.

(** Lines 360-395: the loop that appends the payments. *)
Fixpoint form_payments (rows : list payment_input) (payments : list Payment.t)
    : result (list Payment.t) :=
  match rows with
  | [] => Ok payments
  | row :: rest =>
      (let* p := form_payment row in form_payments rest (payments ++ [p]))%result
  end.

(** Lines 345-355: the totals shown above the payment schedule.  The result
    is [vat_val]. *)
Definition show_totals (items : list Item.t) (vat_str : str) : M Z :=
  let sum_price := py_sum Item.price items in
  let sum_paid := py_sum Item.paid items in
  (vat_val <- lift (parse_int_with_commas vat_str) ;;
   let final_total_paid := sum_paid + vat_val in
   st_emit (StWrite [SStr (lit "---")]) ;;
   st_emit (StWrite [SStr (lit "**Total Price:** " ++ money sum_price)]) ;;
   st_emit (StWrite [SStr (lit "**Total To Be Paid:** " ++ money sum_paid)]) ;;
   st_emit (StWrite [SStr (lit "**VAT:** " ++ money vat_val)]) ;;
   st_emit (StWrite [SStr (lit "**Final To Be Paid (with VAT):** " ++
                           money final_total_paid)]) ;;
   st_emit (StWrite [SStr (lit "---")]) ;;
   ret vat_val)%M.

(** The text fields of the form and the button. *)
Record form_input := mkFormInput {
  in_invoice_number : str;
  in_client_name : str;
  in_country : str;
  in_phone : str;
  (** the date as [strftime("%d/%m/%Y")] writes it *)
  in_invoice_date : str;
  in_vat : str;
  in_items : list item_input;
  in_payments : list payment_input;
  (** [st.button("Generate Invoice")] *)
  in_clicked : bool
}.

Definition put_data (d : InvoiceData) : M unit :=
  fun w => (mkWorld (pdf w) (st_log w) d, Ok tt).

(** One run of the script, lines 316-431: the items, the totals, the
    payments, and the click if there is one.  Of the calls on Streamlit
    the run records [st.write], [st.warning] and [st.error]; titles,
    headers and widgets leave no line. *)
Definition run_script (env : Env) (f : form_input) : M (option click) :=
  (st_emit (StWrite [SStr (lit "**Prices** must sum up for Payment Plan to match the **Total Price** (not the total to be paid).")]) ;;
   items <- lift (form_items (in_items f) []) ;;
   vat_val <- show_totals items (in_vat f) ;;
   payments <- lift (form_payments (in_payments f) []) ;;
   if in_clicked f then
     put_data (mkInvoiceData (in_invoice_number f) (in_invoice_date f)
                             (in_client_name f) (in_country f) (in_phone f)
                             items vat_val payments) ;;
     c <- generate_invoice env ;;
     ret (Some c)
   else ret None)%M.

(** Line 438: the name of the downloaded file. *)
Definition download_file_name (invoice_number : str) : str :=
  lit "ashi_invoice_" ++ replace 0x2F%N (lit "_") invoice_number ++ lit ".pdf".

(** Lines 433-440: what the download button offers: data, file name and
    MIME type. *)
Definition download_button (data : option (document * str))
    : option (document * str * str) :=
  match data with
  | Some (bytes, invoice_number) =>
      Some (bytes, download_file_name invoice_number, lit "application/pdf")
  | None => None
  end.

(** ** More vocabulary *)


Definition blank (c : char) : Prop := isspace c = true \/ c = comma.

(** The entry [p'] holds every value that [p] had: labels, and the
    percentage and the amount where they were given; an entry with
    neither is as it was. *)
Definition supplied_kept (p p' : Payment.t) : Prop :=
  same_labels p p' /\
  (Payment.percentage p <> 0 -> Payment.percentage p' = Payment.percentage p) /\
  (Payment.amount p <> 0 -> Payment.amount p' = Payment.amount p) /\
  (Payment.percentage p = 0 -> Payment.amount p = 0 -> p' = p).


(** The item [it] is the row [row] of the form, with numbers that are not
    negative. *)
Definition item_of_row (row : item_input) (it : Item.t) : Prop :=
  Item.description it = fst (fst row) /\
  parse_int_with_commas (snd (fst row)) = Ok (Item.price it) /\
  parse_int_with_commas (snd row) = Ok (Item.paid it) /\
  0 <= Item.price it /\ 0 <= Item.paid it.


(** The calls of one column of the bank details: placements at the
    abscissa [x], fonts, and paragraphs of width [col_width]. *)
Definition column_call (x : Q) (col_width : Z) (op : pdf_op) : Prop :=
  match op with
  | SetXY x' _ => x' = x
  | MultiCell w _ _ _ _ => w = col_width
  | SetFont _ _ _ => True
  | _ => False
  end.

(** A column that starts at [(x, y)]. *)
Definition column_at (x y : Q) (col_width : Z) (ops : list pdf_op) : Prop :=
  hd_error ops = Some (SetXY x y) /\ Forall (column_call x col_width) ops.

(** The call that places the logo. *)
Definition logo_image : pdf_op := Image LOGO_PATH ((210 - 30) / 2)%Q 10%Q 30%Q.

(** A logo that exists and is no image. *)
Definition env_bad_logo : Env :=
  mkEnv (fun f => if decide (f = LOGO_PATH) then Unreadable else Readable)
        (lit "/app") (fun _ => None) (fun _ => 0%Q).

(** Everything in place. *)
Definition env_complete : Env :=
  mkEnv (fun _ => Readable) (lit "/app") (fun _ => None) (fun _ => 0%Q).

(** * Properties *)

(** ** The utility functions *)

(** C5: the parser gives 12300 on "12,300", 0 on the empty string and on
    "abc", and 123 on "1,2,3": commas are removed wherever they are. *)
Theorem parse_int_with_commas_examples :
  parse_int_with_commas (lit "12,300") = Ok 12300 /\
  parse_int_with_commas (lit "") = Ok 0 /\
  parse_int_with_commas (lit "abc") = Ok 0 /\
  parse_int_with_commas (lit "1,2,3") = Ok 123.
Proof. repeat split; reflexivity. Qed.

(** Whatever is not accepted by [isdigit] once cleaned is read as zero. *)
Lemma parse_int_with_commas_not_digit (text : str) :
  isdigit (strip (replace comma [] text)) = false ->
  parse_int_with_commas text = Ok 0.
Proof. unfold parse_int_with_commas. intros ->. reflexivity. Qed.

(** C4: the parser can fail.  SUPERSCRIPT TWO (U+00B2) passes [isdigit]
    but is no decimal digit, so [int] raises [ValueError] on it instead
    of the parser returning 0. *)
Theorem parse_int_with_commas_superscript_two :
  isdigit (strip (replace comma [] [0xB2%N])) = true /\
  isdecimal_char 0xB2%N = false /\
  parse_int_with_commas [0xB2%N] = Raise ValueError.
Proof. repeat split; reflexivity. Qed.

(** ** Numerals: [int(str(z)) = z] *)


Lemma int_digits_uint_acc (d : Decimal.uint) (acc : positive) :
  int_digits (uint_chars d) (Npos acc) true = Some (Npos (Pos.of_uint_acc d acc)).
Proof.
  revert acc. induction d; intros acc; simpl; try reflexivity;
    rewrite <- IHd; f_equal; lia.
Qed.

Lemma int_digits_uint (d : Decimal.uint) :
  int_digits (uint_chars d) 0%N true = Some (N.of_uint d).
Proof.
  induction d; simpl; try reflexivity; try assumption;
    apply int_digits_uint_acc.
Qed.

Lemma int_digits_uint_start (d : Decimal.uint) :
  d <> Decimal.Nil ->
  int_digits (uint_chars d) 0%N false = Some (N.of_uint d).
Proof.
  destruct d; intros Hd; try congruence; simpl;
    first [apply int_digits_uint | apply int_digits_uint_acc].
Qed.

Lemma N_to_uint_nonnil (n : N) : N.to_uint n <> Decimal.Nil.
Proof.
  destruct n as [|p]; simpl; [discriminate|].
  apply DecimalPos.Unsigned.to_uint_nonnil.
Qed.

Lemma int_digits_of_N (n : N) : int_digits (digits_of_N n) 0%N false = Some n.
Proof.
  unfold digits_of_N. rewrite int_digits_uint_start by apply N_to_uint_nonnil.
  now rewrite DecimalN.Unsigned.of_to.
Qed.

Lemma uint_chars_digits (d : Decimal.uint) : Forall ascii_digit (uint_chars d).
Proof.
  induction d; simpl; constructor; try assumption; unfold ascii_digit; lia.
Qed.

Lemma ascii_digit_not_space (c : char) : ascii_digit c -> isspace c = false.
Proof.
  unfold ascii_digit, isspace. intros H.
  repeat (apply orb_false_intro); try apply andb_false_iff;
    rewrite ?N.leb_gt, ?N.eqb_neq; lia.
Qed.

Lemma lstrip_head (c : char) (s : str) :
  isspace c = false -> lstrip (c :: s) = c :: s.
Proof. intros H. simpl. now rewrite H. Qed.

Lemma strip_digits (s : str) : Forall ascii_digit s -> strip s = s.
Proof.
  intros H. unfold strip, rstrip.
  assert (Hl : forall t, Forall ascii_digit t -> lstrip t = t).
  { intros [|c t] Ht; [reflexivity|]. apply lstrip_head.
    apply ascii_digit_not_space. now inversion Ht. }
  rewrite (Hl s H), (Hl (rev s)); [apply rev_involutive|].
  now apply List.Forall_rev.
Qed.

Lemma to_int_of_int (z : Z) : to_int (of_int z) = Ok z.
Proof.
  unfold to_int, of_int, minus_sign.
  pose proof (uint_chars_digits (N.to_uint (Z.abs_N z))) as Hd.
  fold (digits_of_N (Z.abs_N z)) in Hd.
  destruct (Z.ltb_spec z 0) as [Hz|Hz]; simpl app.
  - assert (Hs : strip (0x2D%N :: digits_of_N (Z.abs_N z))
                 = 0x2D%N :: digits_of_N (Z.abs_N z)).
    { unfold strip, rstrip. rewrite lstrip_head by reflexivity.
      simpl rev.
      destruct (rev (digits_of_N (Z.abs_N z))) as [|c r] eqn:Hr.
      - apply (f_equal (@rev _)) in Hr. rewrite rev_involutive in Hr.
        pose proof (int_digits_of_N (Z.abs_N z)) as Hi.
        rewrite Hr in Hi. discriminate.
      - simpl app. rewrite lstrip_head.
        + change (c :: r ++ [0x2D%N]) with ((c :: r) ++ [0x2D%N]).
          rewrite <- Hr, rev_app_distr, rev_involutive. reflexivity.
        + apply ascii_digit_not_space.
          apply List.Forall_rev in Hd. rewrite Hr in Hd. now inversion Hd. }
    rewrite Hs. simpl. rewrite int_digits_of_N. f_equal. lia.
  - rewrite strip_digits by assumption.
    destruct (digits_of_N (Z.abs_N z)) as [|c r] eqn:Hr.
    + pose proof (int_digits_of_N (Z.abs_N z)) as Hi.
      rewrite Hr in Hi. discriminate.
    + assert (Hc : ascii_digit c) by now inversion Hd.
      unfold ascii_digit in Hc.
      destruct (N.eqb_spec c 0x2D) as [->|_]; [lia|].
      destruct (N.eqb_spec c 0x2B) as [->|_]; [lia|].
      rewrite <- Hr, int_digits_of_N. f_equal. lia.
Qed.




(** ** Running the monad *)

Lemma bind_ok {A B} (m : M A) (k : A -> M B) (w w' : World) (b : B) :
  bind m k w = (w', Ok b) ->
  exists a w1, m w = (w1, Ok a) /\ k a w1 = (w', Ok b).
Proof.
  unfold bind. destruct (m w) as [w1 [a|e]]; [eauto | discriminate].
Qed.

Lemma bind_raise {A B} (m : M A) (k : A -> M B) (w w' : World) (e : exn) :
  bind m k w = (w', Raise e) ->
  m w = (w', Raise e) \/ exists a w1, m w = (w1, Ok a) /\ k a w1 = (w', Raise e).
Proof.
  unfold bind. destruct (m w) as [w1 [a|e1]]; [eauto | intros [= <- <-]; auto].
Qed.

Lemma bind_step {A B} (m : M A) (k : A -> M B) (w w1 : World) (a : A) :
  m w = (w1, Ok a) -> bind m k w = k a w1.
Proof. unfold bind. now intros ->. Qed.

Lemma for_each_st_emit (evs : list st_event) (w : World) :
  for_each evs st_emit w =
  (mkWorld (pdf w) (st_log w ++ evs) (invoice_data w), Ok tt).
Proof.
  revert w. induction evs as [|ev evs IH]; intros w; simpl.
  - rewrite app_nil_r. now destruct w.
  - unfold bind. simpl. rewrite IH. simpl. now rewrite <- app_assoc.
Qed.

(** ** Totality of the composer: it returns, with a document or without *)

Lemma init_pdf_total (env : Env) (w : World) :
  exists w' p, init_pdf env w = (w', Ok p).
Proof.
  unfold init_pdf, bind, try_except, new_pdf, emit, st_emit, ret. simpl.
  destruct (load_fault env _ FONT_BOOKMAN_REGULAR); [eauto|]. simpl.
  destruct (load_fault env _ FONT_BOOKMAN_BOLD); [eauto|]. simpl.
  destruct (fpdf_rejects env _); eauto.
Qed.

Lemma create_invoice_pdf_total (env : Env) (w : World) :
  exists w' r, create_invoice_pdf env w = (w', Ok r).
Proof.
  unfold create_invoice_pdf.
  destruct (init_pdf_total env w) as (w1 & p & Hi).
  rewrite (bind_step _ _ _ _ _ Hi). destruct p as [[]|]; [|unfold ret; eauto].
  unfold bind, emit, try_except. simpl.
  destruct (compose env _) as [w2 [doc|e]]; unfold ret, st_emit; simpl; eauto.
Qed.

(** ** Validation *)

Lemma py_sum_sum_of {A} (f : A -> Z) (l : list A) : py_sum f l = sum_of f l.
Proof.
  unfold py_sum.
  assert (H : forall acc, fold_left (fun a x => a + f x) l acc = acc + sum_of f l).
  { induction l as [|x l IH]; intros acc; simpl; [lia|]. rewrite IH. lia. }
  now rewrite H.
Qed.

Lemma check_entries_nil (ps : list Payment.t) (errs : list str) :
  check_entries ps errs = [] <-> errs = [] /\ Forall entry_set ps.
Proof.
  induction ps as [|p ps IH]; simpl.
  - split; [intros ->; auto | now intros [-> _]].
  - destruct (Z.eqb_spec (Payment.percentage p) 0) as [Hp|Hp];
      [destruct (Z.eqb_spec (Payment.amount p) 0) as [Ha|Ha]|]; simpl.
    + split.
      * intros H. now destruct errs.
      * intros [_ H]. inversion H as [|? ? [Hs|Hs] ?]; contradiction.
    + rewrite IH. split; intros [-> H]; split; auto.
      * constructor; [now right | assumption].
      * now inversion H.
    + rewrite IH. split; intros [-> H]; split; auto.
      * constructor; [now left | assumption].
      * now inversion H.
Qed.

Lemma validate_nil (its : list Item.t) (ps : list Payment.t) :
  validate (py_sum Item.price its) ps = [] <->
  plan_adds_up its ps /\ Forall entry_set ps.
Proof.
  unfold validate, plan_adds_up. rewrite check_entries_nil, !py_sum_sum_of.
  destruct (Z.eqb_spec (sum_of Payment.percentage ps) 100) as [H1|H1];
    [|destruct (Z.eqb_spec (sum_of Payment.amount ps) (sum_of Item.price its))
        as [H2|H2]]; simpl.
  - tauto.
  - tauto.
  - split; [intros [[=] _] | intros [[?|?] _]; contradiction].
Qed.

(** C2: a click generates if and only if the plan adds up (percentages to
    100, or amounts to the total price) and every entry has a percentage or
    an amount; otherwise the errors are shown and the FPDF object and the
    data are left as they were. *)
Theorem generation_iff_validation (env : Env) (w : World) :
  let d := invoice_data w in
  let valid := plan_adds_up (items d) (payments d) /\
               Forall entry_set (payments d) in
  ((exists w' pdf_bytes,
      generate_invoice env w = (w', Ok (Generated pdf_bytes))) <-> valid) /\
  (~ valid ->
   exists errs,
     errs <> [] /\
     generate_invoice env w =
     (mkWorld (pdf w) (st_log w ++ map StError errs) (invoice_data w),
      Ok (Rejected errs))).
Proof.
  intros d valid.
  assert (Hrun : generate_invoice env w =
                 match validate (py_sum Item.price (items d)) (payments d) with
                 | [] => bind (create_invoice_pdf env)
                              (fun b => ret (Generated b)) w
                 | errs => bind (for_each errs (fun err => st_emit (StError err)))
                                (fun _ => ret (Rejected errs)) w
                 end).
  { unfold generate_invoice, bind at 1, get_data. fold d.
    now destruct (validate _ _). }
  pose proof (validate_nil (items d) (payments d)) as Hv. fold valid in Hv.
  assert (Hrej : forall errs, errs <> [] ->
            bind (for_each errs (fun err => st_emit (StError err)))
                 (fun _ => ret (Rejected errs)) w =
            (mkWorld (pdf w) (st_log w ++ map StError errs) (invoice_data w),
             Ok (Rejected errs))).
  { intros errs _. unfold bind.
    assert (He : for_each errs (fun err => st_emit (StError err)) w =
                 for_each (map StError errs) st_emit w).
    { generalize w. induction errs as [|x errs IH]; intros w0; simpl;
        [reflexivity|]. unfold bind. destruct (st_emit _ w0) as [w1 [[]|e]];
        [apply IH | reflexivity]. }
    rewrite He, for_each_st_emit. reflexivity. }
  split; [split|].
  - intros (w' & b & H). apply Hv. rewrite Hrun in H.
    destruct (validate _ _) as [|err errs]; [reflexivity|].
    rewrite Hrej in H by discriminate. discriminate.
  - intros H. apply Hv in H. rewrite Hrun, H.
    destruct (create_invoice_pdf_total env w) as (w' & r & Hc).
    exists w', r. now rewrite (bind_step _ _ _ _ _ Hc).
  - intros Hn. rewrite Hrun.
    destruct (validate _ _) as [|err errs] eqn:E.
    + exfalso. apply Hn, Hv. reflexivity.
    + exists (err :: errs). split; [discriminate|]. now apply Hrej.
Qed.

Lemma generation_iff_validation_witness :
  exists errs,
    errs <> [] /\
    generate_invoice env_no_logo
      (request (sample_invoice [Item.mk (lit "Item 1") 1000 1000] 0
                               [pay 50 0; pay 40 0])) =
    (mkWorld [] (map StError errs)
             (sample_invoice [Item.mk (lit "Item 1") 1000 1000] 0
                             [pay 50 0; pay 40 0]),
     Ok (Rejected errs)).
Proof.
  apply (generation_iff_validation env_no_logo
           (request (sample_invoice [Item.mk (lit "Item 1") 1000 1000] 0
                                    [pay 50 0; pay 40 0]))).
  intros [[H|H] _]; vm_compute in H; discriminate.
Defined.

(** ** The primitive steps *)

Lemma emit_ok (env : Env) (op : pdf_op) (w w' : World) (u : unit) :
  emit env op w = (w', Ok u) -> fault env op = None /\ w' = drawn w [op].
Proof.
  unfold emit. destruct (fault env op); [discriminate|]. now intros [= <-].
Qed.

Lemma emit_accepted (env : Env) (op : pdf_op) (w : World) :
  fault env op = None -> emit env op w = (drawn w [op], Ok tt).
Proof. unfold emit. now intros ->. Qed.

(** [safe_cell] is one call: the one [cell_op] tells. *)
Lemma safe_cell_emit (env : Env) (w h : Z) (txt : str) (border : Z)
    (new_line : bool) (align : str) (wd : World) :
  safe_cell env w h txt border new_line align wd =
  emit env (cell_op env w h txt border new_line align) wd.
Proof.
  unfold safe_cell, try_except, cell_op, emit, raise.
  destruct new_line.
  - destruct (fault env (Cell w h txt border NewXY align)) as [e|] eqn:E.
    + destruct e; rewrite ?E; reflexivity.
    + rewrite E. reflexivity.
  - destruct (fault env (Cell w h txt border (LnArg 0) align)) as [e|] eqn:E.
    + destruct e; rewrite ?E; reflexivity.
    + reflexivity.
Qed.

Lemma safe_cell_ok (env : Env) (w h : Z) (txt : str) (border : Z)
    (new_line : bool) (align : str) (wd wd' : World) (u : unit) :
  safe_cell env w h txt border new_line align wd = (wd', Ok u) ->
  wd' = drawn wd [cell_op env w h txt border new_line align].
Proof. rewrite safe_cell_emit. intros H. now apply emit_ok in H. Qed.

Lemma bind_emit_run {B} (env : Env) (op : pdf_op) (k : unit -> M B)
    (w : World) :
  bind (emit env op) k w =
  match fault env op with
  | Some e => (w, Raise e)
  | None => k tt (drawn w [op])
  end.
Proof. unfold bind, emit. now destruct (fault env op). Qed.

Lemma bind_safe_cell_run {B} (env : Env) (w h : Z) (txt : str) (border : Z)
    (new_line : bool) (align : str) (k : unit -> M B) (wd : World) :
  bind (safe_cell env w h txt border new_line align) k wd =
  match fault env (cell_op env w h txt border new_line align) with
  | Some e => (wd, Raise e)
  | None => k tt (drawn wd [cell_op env w h txt border new_line align])
  end.
Proof. unfold bind. rewrite safe_cell_emit. apply bind_emit_run. Qed.

Lemma drawn_drawn (w : World) (l1 l2 : list pdf_op) :
  drawn (drawn w l1) l2 = drawn w (l1 ++ l2).
Proof. unfold drawn. simpl. now rewrite <- app_assoc. Qed.

Lemma drawn_nil (w : World) : drawn w [] = w.
Proof. unfold drawn. rewrite app_nil_r. now destruct w. Qed.

Lemma drawn_data (w : World) (l : list pdf_op) :
  invoice_data (drawn w l) = invoice_data w.
Proof. reflexivity. Qed.

Lemma drawn_pdf (w : World) (l : list pdf_op) : pdf (drawn w l) = pdf w ++ l.
Proof. reflexivity. Qed.

Lemma bind_get_data_run {B} (k : InvoiceData -> M B) (w : World) :
  bind get_data k w = k (invoice_data w) w.
Proof. reflexivity. Qed.

Lemma bind_ret_run {A B} (a : A) (k : A -> M B) (w : World) :
  bind (ret a) k w = k a w.
Proof. reflexivity. Qed.

Lemma bind_get_y_run {B} (env : Env) (k : Q -> M B) (w : World) :
  bind (get_y env) k w = k (cursor_y env (pdf w)) w.
Proof. reflexivity. Qed.

Lemma cell_op_accepted (env : Env) (w h : Z) (txt : str) (border : Z)
    (new_line : bool) (align : str) :
  well_behaved env ->
  fault env (cell_op env w h txt border new_line align) = None.
Proof.
  intros Hwb. unfold cell_op. destruct new_line.
  - simpl. destruct (Hwb (Cell w h txt border NewXY align)) as [H|[H _]];
      rewrite H; simpl; [assumption|].
    destruct (Hwb (Cell w h txt border (LnArg 1) align))
      as [H1|[_ (? & ? & ? & ? & ? & [=])]]. assumption.
  - simpl. destruct (Hwb (Cell w h txt border (LnArg 0) align))
      as [H1|[_ (? & ? & ? & ? & ? & [=])]]. assumption.
Qed.

Lemma plain_accepted (env : Env) (op : pdf_op) :
  well_behaved env -> is_plain op = true -> fault env op = None.
Proof.
  intros Hwb Hp.
  destruct (Hwb op) as [H|[_ (? & ? & ? & ? & ? & ->)]]; [|discriminate].
  destruct op; try reflexivity; try discriminate; exact H.
Qed.

(** ** Invariants of the composer

    [R] is any relation between worlds that is reflexive and transitive,
    holds across a permitted call on the FPDF object and across a line of
    Streamlit output.  Every section of the composer that does not write
    to the payments keeps it; the payment schedule keeps it when it also
    holds across the two write-backs. *)

Section Keeps.

Variable env : Env.
Variable R : World -> World -> Prop.
Variable allowed : pdf_op -> Prop.

Hypothesis R_refl : forall w, R w w.
Hypothesis R_trans : forall a b c, R a b -> R b c -> R a c.
Hypothesis R_draw : forall w op, allowed op -> R w (drawn w [op]).
Hypothesis R_said : forall w ev, R w (said w ev).
Hypothesis allowed_drawing : forall op, is_image op = false -> allowed op.
Hypothesis allowed_logo :
  path_exists env LOGO_PATH = true ->
  forall x y wd, allowed (Image LOGO_PATH x y wd).

Lemma keeps_ret {A} (a : A) : keeps R (ret a).
Proof. intros w w' r [= <- _]. apply R_refl. Qed.

Lemma keeps_raise {A} (e : exn) : keeps R (@raise A e).
Proof. intros w w' r [= <- _]. apply R_refl. Qed.

Lemma keeps_lift {A} (x : result A) : keeps R (lift x).
Proof. intros w w' r [= <- _]. apply R_refl. Qed.

Lemma keeps_bind {A B} (m : M A) (k : A -> M B) :
  keeps R m -> (forall a, keeps R (k a)) -> keeps R (bind m k).
Proof.
  intros Hm Hk w w' r. unfold bind.
  destruct (m w) as [w1 [a|e]] eqn:E.
  - intros H. eapply R_trans; [eapply Hm, E | eapply Hk, H].
  - intros [= <- _]. eapply Hm, E.
Qed.

Lemma keeps_try_except {A} (body : M A) (handler : exn -> M A) :
  keeps R body -> (forall e, keeps R (handler e)) ->
  keeps R (try_except body handler).
Proof.
  intros Hb Hh w w' r. unfold try_except.
  destruct (body w) as [w1 [a|e]] eqn:E.
  - intros [= <- _]. eapply Hb, E.
  - intros H. eapply R_trans; [eapply Hb, E | eapply Hh, H].
Qed.

Lemma keeps_emit (op : pdf_op) : allowed op -> keeps R (emit env op).
Proof.
  intros Ha w w' r. unfold emit. destruct (fault env op).
  - intros [= <- _]. apply R_refl.
  - intros [= <- _]. now apply R_draw.
Qed.

Lemma keeps_safe_cell (w h : Z) (txt : str) (border : Z) (new_line : bool)
    (align : str) :
  keeps R (safe_cell env w h txt border new_line align).
Proof.
  intros wd wd' r. rewrite safe_cell_emit. apply keeps_emit.
  apply allowed_drawing. unfold cell_op.
  destruct new_line; [destruct (fault env _) as [[]|]|]; reflexivity.
Qed.

Lemma keeps_st_emit (ev : st_event) : keeps R (st_emit ev).
Proof. intros w w' r [= <- _]. apply R_said. Qed.

Lemma keeps_get_data : keeps R get_data.
Proof. intros w w' r [= <- _]. apply R_refl. Qed.

Lemma keeps_get_y : keeps R (get_y env).
Proof. intros w w' r [= <- _]. apply R_refl. Qed.

Lemma keeps_get_payment (idx : nat) : keeps R (get_payment idx).
Proof.
  intros w w' r. unfold get_payment.
  destruct (payments (invoice_data w) !! idx); intros [= <- _]; apply R_refl.
Qed.

Lemma keeps_for_each {A} (l : list A) (body : A -> M unit) :
  (forall x, keeps R (body x)) -> keeps R (for_each l body).
Proof.
  intros Hb. induction l as [|x l IH]; simpl.
  - apply keeps_ret.
  - apply keeps_bind; [apply Hb | intros _; apply IH].
Qed.

Lemma keeps_for_fold {A S} (l : list A) (body : S -> A -> M S) (acc : S) :
  (forall s x, keeps R (body s x)) -> keeps R (for_fold l body acc).
Proof.
  intros Hb. revert acc. induction l as [|x l IH]; intros acc; simpl.
  - apply keeps_ret.
  - apply keeps_bind; [apply Hb | intros s; apply IH].
Qed.

Ltac keeps_step :=
  first
    [ apply keeps_bind; [|intros ?]
    | apply keeps_safe_cell
    | apply keeps_emit; apply allowed_drawing; reflexivity
    | apply keeps_ret
    | apply keeps_st_emit
    | apply keeps_get_data
    | apply keeps_get_y
    | apply keeps_lift
    | apply keeps_for_each; intros ?
    | apply keeps_for_fold; intros ? ?
    | match goal with
      | |- keeps _ (let '(_, _) := ?p in _) => destruct p
      | |- keeps _ (match ?l with [] => _ | _ :: _ => _ end) => destruct l
      | |- keeps _ (if ?b then _ else _) => destruct b
      end ].

Lemma keeps_header : keeps R (header env).
Proof.
  unfold header. apply keeps_bind.
  - destruct (path_exists env LOGO_PATH) eqn:E.
    + apply keeps_emit. now apply allowed_logo.
    + apply keeps_st_emit.
  - intros _. repeat keeps_step.
Qed.

Lemma keeps_items_table : keeps R (items_table env).
Proof. unfold items_table, item_row. repeat keeps_step. Qed.

Lemma keeps_print_bank_column (x y : Q) (cw : Z) (data : list (str * str))
    (ts ds : Z) :
  keeps R (print_bank_column env x y cw data ts ds).
Proof. unfold print_bank_column. repeat keeps_step. Qed.

Lemma keeps_bank_details : keeps R (example_bank_details_4columns env).
Proof.
  unfold example_bank_details_4columns.
  repeat first [apply keeps_print_bank_column | keeps_step].
Qed.

Lemma keeps_closing : keeps R (closing env).
Proof. unfold closing, standard_term. repeat keeps_step. Qed.

Lemma keeps_payment_terms : keeps R (payment_terms env).
Proof. unfold payment_terms, payment_term. repeat keeps_step. Qed.

Lemma keeps_terms : keeps R (terms_and_conditions env).
Proof.
  unfold terms_and_conditions.
  repeat first [apply keeps_closing | apply keeps_payment_terms | keeps_step].
Qed.

Lemma keeps_output : keeps R (output env).
Proof.
  intros w w' r. unfold output.
  destruct (fault env Output); intros [= <- _]; apply R_refl.
Qed.



(** The payment schedule keeps what its loop keeps. *)
Lemma keeps_payment_schedule_rows (sum_price : Z) :
  keeps R (payment_rows env sum_price) ->
  keeps R (payment_schedule env sum_price).
Proof.
  intros Hrows. unfold payment_schedule.
  repeat first [ apply Hrows | keeps_step ].
Qed.

Lemma keeps_compose_rows :
  (forall sum_price, keeps R (payment_rows env sum_price)) ->
  keeps R (compose env).
Proof.
  intros Hrows. unfold compose.
  repeat first [ apply keeps_header | apply keeps_items_table
               | apply keeps_payment_schedule_rows; apply Hrows
               | apply keeps_bank_details
               | apply keeps_terms | apply keeps_output | keeps_step ].
Qed.

(** The write-backs of the payment schedule. *)
Hypothesis R_update :
  forall w idx p v,
    payments (invoice_data w) !! idx = Some p ->
    forall upd, upd = Payment.set_percentage v \/ upd = Payment.set_amount v ->
    R w (mkWorld (pdf w) (st_log w)
                 (set_payments (<[idx := upd p]> (payments (invoice_data w)))
                               (invoice_data w))).

Lemma keeps_update_percentage (idx : nat) (v : Z) :
  keeps R (update_payment idx (Payment.set_percentage v)).
Proof.
  intros w w' r. unfold update_payment.
  destruct (payments (invoice_data w) !! idx) as [p|] eqn:E;
    intros [= <- _]; [|apply R_refl].
  eapply R_update; eauto.
Qed.

Lemma keeps_update_amount (idx : nat) (v : Z) :
  keeps R (update_payment idx (Payment.set_amount v)).
Proof.
  intros w w' r. unfold update_payment.
  destruct (payments (invoice_data w) !! idx) as [p|] eqn:E;
    intros [= <- _]; [|apply R_refl].
  eapply R_update; eauto.
Qed.

Lemma keeps_payment_schedule (sum_price : Z) :
  keeps R (payment_schedule env sum_price).
Proof.
  unfold payment_schedule, payment_rows, payment_row.
  repeat first [ apply keeps_get_payment | apply keeps_update_percentage
               | apply keeps_update_amount | keeps_step ].
Qed.

Lemma keeps_compose : keeps R (compose env).
Proof.
  unfold compose.
  repeat first [ apply keeps_header | apply keeps_items_table
               | apply keeps_payment_schedule | apply keeps_bank_details
               | apply keeps_terms | apply keeps_output | keeps_step ].
Qed.


(** With a logo the composer starts with its image. *)
Lemma keeps_compose_logo (w w' : World) (doc : document) :
  path_exists env LOGO_PATH = true ->
  compose env w = (w', Ok doc) ->
  fault env logo_image = None /\ R (drawn w [logo_image]) w'.
Proof.
  intros Hlogo. unfold compose, header. rewrite Hlogo. fold logo_image.
  intros H.
  assert (Hrun : forall {A B} (l : unit -> M A) (k : A -> M B),
            bind (bind (emit env logo_image) l) k w =
            match fault env logo_image with
            | Some e => (w, Raise e)
            | None => bind (l tt) k (drawn w [logo_image])
            end).
  { intros A B l k. unfold bind at 1 2, emit.
    destruct (fault env logo_image); reflexivity. }
  rewrite Hrun in H. destruct (fault env logo_image); [discriminate|].
  split; [reflexivity|].
  match type of H with ?m _ = _ => assert (Hk : keeps R m) end;
    [|eapply Hk, H].
  repeat first [ apply keeps_items_table | apply keeps_payment_schedule
               | apply keeps_bank_details
               | apply keeps_terms | apply keeps_output | keeps_step ].
Qed.

End Keeps.

(** ** Payment derivation *)

Lemma derive_entry_resolve (base : Z) (p : Payment.t) :
  derive_entry base p =
  rbind (resolve base (Payment.percentage p) (Payment.amount p))
        (fun pa => Ok (Payment.mk (Payment.name p) (Payment.date p)
                                  (fst pa) (snd pa) (Payment.description p))).
Proof.
  unfold derive_entry, resolve. destruct p as [n d perc amt ds]; simpl.
  destruct (Z.eqb_spec perc 0) as [Hp|Hp];
    destruct (Z.eqb_spec amt 0) as [Ha|Ha]; simpl;
    repeat (destruct (decide _) as [[? ?]|?]; try tauto; try lia);
    try reflexivity.
  - destruct (percentage_of amt base); reflexivity.
  - destruct (amount_of perc base); reflexivity.
Qed.

Lemma for_each_emit_frame (env : Env) (ops : list pdf_op) (w w' : World)
    (r : result unit) :
  for_each ops (emit env) w = (w', r) ->
  st_log w' = st_log w /\ invoice_data w' = invoice_data w /\
  (r = Ok tt -> w' = drawn w ops).
Proof.
  revert w. induction ops as [|op ops IH]; intros w; simpl.
  - intros [= <- <-]. repeat split. unfold drawn. rewrite app_nil_r.
    now destruct w.
  - unfold bind, emit at 1. destruct (fault env op).
    + intros [= <- <-]. repeat split. discriminate.
    + intros H. apply IH in H as (H1 & H2 & H3). simpl in *.
      repeat split; try assumption. intros Hr. rewrite (H3 Hr).
      unfold drawn. simpl. now rewrite <- app_assoc.
Qed.

Lemma for_each_emit_accepted (env : Env) (ops : list pdf_op) (w : World) :
  Forall (fun op => fault env op = None) ops ->
  for_each ops (emit env) w = (drawn w ops, Ok tt).
Proof.
  intros H. revert w. induction H as [|op ops Hop _ IH]; intros w; simpl.
  - unfold ret, drawn. rewrite app_nil_r. now destruct w.
  - rewrite (bind_step _ _ _ _ _ (emit_accepted env op w Hop)), IH.
    unfold drawn. simpl. now rewrite <- app_assoc.
Qed.

(** One row of the payment schedule: the entry is resolved, its four cells
    are drawn, and the resolved entry replaces it. *)
Lemma payment_row_run (env : Env) (base : Z) (idx : nat) (w : World)
    (p : Payment.t) :
  payments (invoice_data w) !! idx = Some p ->
  payment_row env base idx w =
  match derive_entry base p with
  | Raise e => (w, Raise e)
  | Ok p' =>
      match for_each (payment_row_ops env p') (emit env) w with
      | (w1, Raise e) => (w1, Raise e)
      | (w1, Ok _) =>
          (mkWorld (pdf w1) (st_log w1)
             (set_payments (<[idx := p']> (payments (invoice_data w)))
                           (invoice_data w)), Ok tt)
      end
  end.
Proof.
  intros Hp. unfold payment_row. unfold bind at 1, get_payment. rewrite Hp.
  unfold bind at 1, lift. rewrite derive_entry_resolve.
  destruct (resolve base _ _) as [[perc amt]|e]; [|reflexivity].
  cbn [rbind fst snd payment_row_ops Payment.name Payment.date
       Payment.percentage Payment.amount for_each].
  repeat (rewrite bind_safe_cell_run, bind_emit_run;
          destruct (fault env _); [reflexivity|]; cbv beta).
  unfold bind, update_payment, ret, drawn.
  cbn [pdf st_log invoice_data payments set_payments].
  rewrite Hp. cbn [pdf st_log invoice_data payments set_payments].
  assert (Hlt : (idx < length (payments (invoice_data w)))%nat)
    by (eapply lookup_lt_Some; eauto).
  rewrite list_lookup_insert_eq by assumption.
  rewrite list_insert_insert_eq.
  destruct p; reflexivity.
Qed.

Lemma set_payments_same (d : InvoiceData) : set_payments (payments d) d = d.
Proof. now destruct d. Qed.

Lemma set_payments_twice (ps qs : list Payment.t) (d : InvoiceData) :
  set_payments ps (set_payments qs d) = set_payments ps d.
Proof. reflexivity. Qed.

Lemma insert_middle {A} (l1 l2 : list A) (x y : A) :
  <[length l1 := x]> (l1 ++ y :: l2) = l1 ++ x :: l2.
Proof. induction l1 as [|a l1 IH]; simpl; [reflexivity | now f_equal]. Qed.

(** The loop over the entries, started at any index: what has been done
    is in [done], what is to do in [rest]. *)
Lemma payment_loop (env : Env) (base : Z) (rest done : list Payment.t)
    (w w' : World) (r : result unit) :
  payments (invoice_data w) = done ++ rest ->
  for_each (seq (length done) (length rest)) (payment_row env base) w = (w', r) ->
  match r with
  | Ok _ =>
      exists rest',
        derive_all base rest = Ok rest' /\
        w' = mkWorld (pdf w ++ flat_map (payment_row_ops env) rest') (st_log w)
                     (set_payments (done ++ rest') (invoice_data w))
  | Raise e =>
      exists k rest',
        (k < length rest)%nat /\
        derive_all base (take k rest) = Ok rest' /\
        invoice_data w' =
        set_payments (done ++ rest' ++ drop k rest) (invoice_data w)
  end.
Proof.
  revert done w. induction rest as [|p rest IH]; intros done w Hps; simpl.
  - intros [= <- <-]. exists []. split; [reflexivity|].
    rewrite !app_nil_r in *. rewrite <- Hps, set_payments_same. now destruct w.
  - assert (Hp : payments (invoice_data w) !! length done = Some p)
      by (rewrite Hps; apply list_lookup_middle; reflexivity).
    unfold bind. rewrite (payment_row_run env base _ w p Hp).
    destruct (derive_entry base p) as [p'|e] eqn:Ed.
    2:{ intros [= <- <-]. exists O, []. simpl.
        rewrite <- Hps, set_payments_same. repeat split. lia. }
    destruct (for_each (payment_row_ops env p') (emit env) w)
      as [w1 [[]|e]] eqn:Ee;
      apply for_each_emit_frame in Ee as (Hst & Hd & Hok).
    2:{ intros [= <- <-]. exists O, []. simpl.
        rewrite Hd, <- Hps, set_payments_same. repeat split. lia. }
    specialize (Hok eq_refl). subst w1. cbn [pdf st_log drawn].
    rewrite Hps, insert_middle.
    intros Hloop.
    specialize (IH (done ++ [p'])).
    rewrite length_app in IH. simpl in IH.
    replace (length done + 1)%nat with (S (length done)) in IH by lia.
    apply IH in Hloop; [|simpl; now rewrite <- app_assoc].
    cbn [pdf st_log invoice_data] in Hloop.
    destruct r as [[]|e].
    + destruct Hloop as (rest' & Hr & ->). exists (p' :: rest').
      rewrite Hr. split; [reflexivity|]. simpl.
      rewrite set_payments_twice, <- !app_assoc. reflexivity.
    + destruct Hloop as (k & rest' & Hk & Hr & Hw). exists (S k), (p' :: rest').
      simpl. rewrite Ed, Hr, Hw. simpl.
      rewrite set_payments_twice, <- !app_assoc. repeat split. lia.
Qed.

(** With an FPDF that draws what it is asked to, the loop stops only where
    derivation does. *)
Lemma payment_loop_accepted (env : Env) (base : Z) (rest done : list Payment.t)
    (w : World) :
  well_behaved env ->
  payments (invoice_data w) = done ++ rest ->
  match derive_all base rest with
  | Ok rest' =>
      for_each (seq (length done) (length rest)) (payment_row env base) w =
      (mkWorld (pdf w ++ flat_map (payment_row_ops env) rest') (st_log w)
               (set_payments (done ++ rest') (invoice_data w)), Ok tt)
  | Raise e =>
      exists w',
        for_each (seq (length done) (length rest)) (payment_row env base) w =
        (w', Raise e)
  end.
Proof.
  intros Hwb. revert done w. induction rest as [|p rest IH]; intros done w Hps.
  - simpl. unfold ret. rewrite !app_nil_r in *.
    rewrite <- Hps, set_payments_same. now destruct w.
  - assert (Hp : payments (invoice_data w) !! length done = Some p)
      by (rewrite Hps; apply list_lookup_middle; reflexivity).
    cbn [derive_all length seq for_each]. unfold bind.
    rewrite (payment_row_run env base _ w p Hp).
    destruct (derive_entry base p) as [p'|e] eqn:Ed; cbn [rbind]; [|eauto].
    rewrite for_each_emit_accepted
      by (unfold payment_row_ops; repeat constructor;
          now apply cell_op_accepted).
    cbn [pdf st_log drawn].
    rewrite Hps, insert_middle.
    specialize (IH (done ++ [p'])
                  (mkWorld (pdf w ++ payment_row_ops env p') (st_log w)
                           (set_payments (done ++ p' :: rest) (invoice_data w)))).
    rewrite length_app in IH. simpl length in IH.
    replace (length done + 1)%nat with (S (length done)) in IH by lia.
    specialize (IH ltac:(simpl; now rewrite <- app_assoc)).
    destruct (derive_all base rest) as [rest'|e]; cbn [rbind].
    + rewrite IH. cbn [pdf st_log invoice_data flat_map].
      rewrite set_payments_twice, <- !app_assoc. reflexivity.
    + exact IH.
Qed.

Lemma payment_rows_run (env : Env) (base : Z) (w : World) :
  payment_rows env base w =
  for_each (seq 0 (length (payments (invoice_data w)))) (payment_row env base) w.
Proof. reflexivity. Qed.

(** Resolved entries are left as they are. *)
Lemma derive_entry_resolved (base : Z) (p : Payment.t) :
  resolved p -> derive_entry base p = Ok p.
Proof.
  intros [Hp Ha]. unfold derive_entry.
  repeat (destruct (decide _) as [[? ?]|?]; try contradiction). reflexivity.
Qed.

Lemma derive_all_resolved (base : Z) (ps : list Payment.t) :
  Forall resolved ps -> derive_all base ps = Ok ps.
Proof.
  induction 1 as [|p ps Hp _ IH]; simpl; [reflexivity|].
  now rewrite derive_entry_resolved, IH.
Qed.

(** C7: derivation leaves an entry with both fields non-zero unchanged,
    whatever the base price; run over entries that are all resolved, the
    payment loop leaves the whole of [invoice_data] as it was. *)
Theorem derivation_idempotent_on_resolved :
  (forall base p, resolved p -> derive_entry base p = Ok p) /\
  (forall base perc amt,
     perc <> 0 -> amt <> 0 -> resolve base perc amt = Ok (perc, amt)) /\
  (forall env base w w' r,
     Forall resolved (payments (invoice_data w)) ->
     payment_rows env base w = (w', r) ->
     invoice_data w' = invoice_data w).
Proof.
  split; [exact derive_entry_resolved|]. split.
  - intros base perc amt Hp Ha. unfold resolve.
    destruct (Z.eqb_spec perc 0); [contradiction|].
    destruct (Z.eqb_spec amt 0); [contradiction|]. reflexivity.
  - intros env base w w' r Hres. rewrite payment_rows_run. intros H.
    apply (payment_loop env base _ [] w w' r eq_refl) in H.
    destruct r as [[]|e].
    + destruct H as (rest' & Hd & ->).
      rewrite derive_all_resolved in Hd by assumption. injection Hd as <-.
      simpl. apply set_payments_same.
    + destruct H as (k & rest' & Hk & Hd & ->).
      rewrite derive_all_resolved in Hd
        by (apply Forall_take; assumption).
      injection Hd as <-. simpl. rewrite take_drop. apply set_payments_same.
Qed.

Lemma derivation_idempotent_on_resolved_witness :
  derive_entry 0 (pay 50 500) = Ok (pay 50 500) /\
  resolve 0 50 500 = Ok (50, 500).
Proof.
  destruct derivation_idempotent_on_resolved as (H1 & H2 & _). split.
  - apply H1. split; discriminate.
  - apply H2; discriminate.
Defined.

(** ** Rounding *)

Lemma round_half_even_nearest (m : Z) (k : positive) :
  let D := 2 ^ Zpos k in
  let a := PyFloat.round_half_even m k in
  2 * Z.abs (a * D - m) <= D /\
  (2 * Z.abs (a * D - m) = D -> Z.even a = true).
Proof.
  intros D a. subst a. unfold PyFloat.round_half_even. fold D.
  set (h := 2 ^ (Zpos k - 1)).
  assert (HD : D = 2 * h).
  { unfold D, h. rewrite <- Z.pow_succ_r by lia. f_equal. lia. }
  assert (Hh : 0 < h) by (unfold h; apply Z.pow_pos_nonneg; lia).
  pose proof (Z.div_mod m D ltac:(lia)) as Hm.
  pose proof (Z.mod_pos_bound m D ltac:(lia)) as Hr.
  set (q := m / D) in *. set (r := m mod D) in *.
  destruct (Z.ltb_spec r h); [split; [nia | intros; nia]|].
  destruct (Z.ltb_spec h r); [split; [nia | intros; nia]|].
  assert (r = h) by lia.
  destruct (Z.even q) eqn:Eq; split; try nia; intros _; [assumption|].
  rewrite Z.even_add, Eq. reflexivity.
Qed.

Lemma nearest_even_fraction (r n : Z) (d : positive) :
  2 * Z.abs (r * Z.pos d - n) <= Z.pos d ->
  (2 * Z.abs (r * Z.pos d - n) = Z.pos d -> Z.even r = true) ->
  nearest_even r (n # d).
Proof.
  intros H1 H2. unfold nearest_even, Qle, Qeq, Qabs, Qminus, Qplus, Qopp, inject_Z.
  cbn [Qnum Qden]. change (1 * d)%positive with d.
  replace (r * Z.pos d + - n * 1) with (r * Z.pos d - n) by lia.
  split; [lia | intros H; apply H2; lia].
Qed.

(** [round] gives an integer nearest to the float, the even one on a tie. *)
Lemma round_nearest_even (x : PyFloat.float) (r : Z) :
  PyFloat.round x = Ok r -> nearest_even r (PyFloat.value x).
Proof.
  destruct x as [s|s| |s m e]; simpl; try discriminate.
  - intros [= <-]. apply (nearest_even_fraction 0 0 1); simpl; lia.
  - intros [= <-]. destruct e as [|p|k].
    + apply (nearest_even_fraction _ _ 1); destruct s; lia.
    + apply (nearest_even_fraction _ _ 1); destruct s; lia.
    + pose proof (round_half_even_nearest (Z.pos m) k) as [H1 H2].
      set (a := PyFloat.round_half_even (Z.pos m) k) in *.
      assert (HD : Z.pos (2 ^ k) = 2 ^ Z.pos k) by apply Pos2Z.inj_pow.
      apply nearest_even_fraction; rewrite HD; destruct s;
        rewrite ?Z.even_opp;
        try replace (Z.abs (- a * 2 ^ Z.pos k - Z.neg m))
          with (Z.abs (a * 2 ^ Z.pos k - Z.pos m)) by lia;
        assumption.
Qed.

(** ** The items table *)

Ltac run_ok H :=
  repeat first
    [ rewrite bind_safe_cell_run in H;
      destruct (fault _ (cell_op _ _ _ _ _ _ _)); [discriminate H|]
    | rewrite bind_emit_run in H;
      match type of H with
      | context [match fault ?e ?o with _ => _ end] =>
          destruct (fault e o); [discriminate H|]
      end
    | rewrite bind_get_data_run in H
    | rewrite bind_get_y_run in H
    | rewrite bind_ret_run in H
    | progress (cbv beta in H)
    | rewrite drawn_drawn in H
    | rewrite drawn_data in H ].

Ltac flatten_ops :=
  cbn [app]; rewrite <- ?app_assoc; cbn [app].

Lemma item_rows_ok (env : Env) (its : list Item.t) (sums sums' : Z * Z)
    (w w' : World) :
  for_fold its (item_row env) sums w = (w', Ok sums') ->
  sums' = (fst sums + sum_of Item.price its, snd sums + sum_of Item.paid its) /\
  w' = drawn w (flat_map (item_row_ops env) its).
Proof.
  revert sums w. induction its as [|item its IH]; intros [sp spd] w; simpl.
  - intros [= <- <-]. split; [f_equal; lia | now rewrite drawn_nil].
  - intros H. apply bind_ok in H as (sums1 & w1 & H1 & H).
    unfold item_row in H1. run_ok H1.
    injection H1 as <- <-. apply IH in H as [-> ->]. simpl.
    split; [f_equal; lia | now rewrite drawn_drawn].
Qed.

Lemma items_table_ok (env : Env) (w w' : World) (sp : Z) :
  items_table env w = (w', Ok sp) ->
  let d := invoice_data w in
  let sum_price := sum_of Item.price (items d) in
  let sum_paid := sum_of Item.paid (items d) in
  sp = sum_price /\
  w' = drawn w (items_head_ops env ++ flat_map (item_row_ops env) (items d) ++
                totals_ops env sum_price sum_paid (vat d) (sum_paid + vat d)).
Proof.
  intros H d sum_price sum_paid. unfold items_table in H.
  run_ok H. fold d in H.
  apply bind_ok in H as ([sp1 spd1] & w1 & Hrows & H).
  apply item_rows_ok in Hrows as [[= -> ->] ->]. simpl fst in H. simpl snd in H.
  change (0 + sum_of Item.price (items d)) with sum_price in H.
  change (0 + sum_of Item.paid (items d)) with sum_paid in H.
  run_ok H. fold d in H.
  injection H as <- <-. split; [reflexivity|].
  unfold items_head_ops, totals_ops.
  first [reflexivity | f_equal; flatten_ops; reflexivity].
Qed.

(** ** Sections that always return

    With an FPDF that draws what it is asked to, every section of the
    composer that does not depend on the payments returns. *)

Section Succeeds.

Variable env : Env.
Hypothesis Hwb : well_behaved env.

Lemma succeeds_ret {A} (a : A) : succeeds (ret a).
Proof. intros w. unfold ret. eauto. Qed.

Lemma succeeds_bind {A B} (m : M A) (k : A -> M B) :
  succeeds m -> (forall a, succeeds (k a)) -> succeeds (bind m k).
Proof.
  intros Hm Hk w. destruct (Hm w) as (w1 & a & H1).
  rewrite (bind_step _ _ _ _ _ H1). apply Hk.
Qed.

Lemma succeeds_emit (op : pdf_op) : is_plain op = true -> succeeds (emit env op).
Proof.
  intros Hp w. rewrite emit_accepted by now apply plain_accepted. eauto.
Qed.

Lemma succeeds_safe_cell (w h : Z) (txt : str) (border : Z) (new_line : bool)
    (align : str) :
  succeeds (safe_cell env w h txt border new_line align).
Proof.
  intros wd. rewrite safe_cell_emit, emit_accepted
    by now apply cell_op_accepted. eauto.
Qed.

Lemma succeeds_st_emit (ev : st_event) : succeeds (st_emit ev).
Proof. intros w. unfold st_emit. eauto. Qed.

Lemma succeeds_get_data : succeeds get_data.
Proof. intros w. unfold get_data. eauto. Qed.

Lemma succeeds_get_y : succeeds (get_y env).
Proof. intros w. unfold get_y. eauto. Qed.

Lemma succeeds_for_each {A} (l : list A) (body : A -> M unit) :
  (forall x, succeeds (body x)) -> succeeds (for_each l body).
Proof.
  intros Hb. induction l as [|x l IH]; simpl.
  - apply succeeds_ret.
  - apply succeeds_bind; [apply Hb | intros _; apply IH].
Qed.

Lemma succeeds_for_fold {A S} (l : list A) (body : S -> A -> M S) (acc : S) :
  (forall s x, succeeds (body s x)) -> succeeds (for_fold l body acc).
Proof.
  intros Hb. revert acc. induction l as [|x l IH]; intros acc; simpl.
  - apply succeeds_ret.
  - apply succeeds_bind; [apply Hb | intros s; apply IH].
Qed.

(** The index of an enumeration always has an ordinal. *)
Lemma ordinal_of_nat (i : nat) : exists ord, ordinal (Z.of_nat i) = Ok ord.
Proof.
  unfold ordinal. change (Z.of_nat (length ordinals)) with 10.
  destruct (Z.ltb_spec (Z.of_nat i) 10) as [H|H]; [|eauto].
  unfold py_index. destruct (Z.ltb_spec (Z.of_nat i) 0); [lia|].
  rewrite Nat2Z.id.
  do 10 (destruct i as [|i]; [simpl; eauto|]). lia.
Qed.

Lemma succeeds_ordinal (i : nat) : succeeds (lift (ordinal (Z.of_nat i))).
Proof.
  intros w. destruct (ordinal_of_nat i) as [ord H]. unfold lift. rewrite H. eauto.
Qed.

Ltac succeeds_step :=
  first
    [ apply succeeds_bind; [|intros ?]
    | apply succeeds_safe_cell
    | apply succeeds_emit; reflexivity
    | apply succeeds_ret
    | apply succeeds_st_emit
    | apply succeeds_get_data
    | apply succeeds_get_y
    | apply succeeds_ordinal
    | apply succeeds_for_each; intros ?
    | apply succeeds_for_fold; intros ? ?
    | match goal with
      | |- succeeds (let '(_, _) := ?p in _) => destruct p
      | |- succeeds (match ?l with [] => _ | _ :: _ => _ end) => destruct l
      | |- succeeds (if ?b then _ else _) => destruct b
      end ].

(** The header needs the logo to be absent or to be a readable image. *)
Lemma succeeds_header : file env LOGO_PATH <> Unreadable -> succeeds (header env).
Proof.
  intros Hlogo. unfold header. apply succeeds_bind.
  - unfold path_exists. destruct (file env LOGO_PATH) eqn:E.
    + apply succeeds_st_emit.
    + contradiction.
    + intros w. rewrite emit_accepted; [eauto|].
      simpl. unfold load_fault. rewrite E.
      destruct (Hwb (Image LOGO_PATH ((210 - 30) / 2) 10 30))
        as [H|[_ (? & ? & ? & ? & ? & [=])]]. exact H.
  - intros _. repeat succeeds_step.
Qed.

Lemma succeeds_items_table : succeeds (items_table env).
Proof. unfold items_table, item_row. repeat succeeds_step. Qed.

Lemma succeeds_bank_details : succeeds (example_bank_details_4columns env).
Proof.
  unfold example_bank_details_4columns, print_bank_column.
  repeat succeeds_step.
Qed.

Lemma succeeds_closing : succeeds (closing env).
Proof. unfold closing, standard_term. repeat succeeds_step. Qed.

Lemma succeeds_terms : succeeds (terms_and_conditions env).
Proof.
  unfold terms_and_conditions, payment_terms, payment_term.
  repeat first [apply succeeds_closing | succeeds_step].
Qed.

Lemma succeeds_output : succeeds (output env).
Proof.
  intros w. unfold output. rewrite plain_accepted by (auto || reflexivity). eauto.
Qed.

End Succeeds.

(** ** Frames *)

Lemma frame_refl (w : World) : frame w w.
Proof. split; [reflexivity|]. exists []. now rewrite app_nil_r. Qed.

Lemma frame_trans (a b c : World) : frame a b -> frame b c -> frame a c.
Proof.
  intros [H1 [l1 E1]] [H2 [l2 E2]]. split; [congruence|].
  exists (l1 ++ l2). now rewrite E2, E1, app_assoc.
Qed.

Lemma frame_draw (w : World) (op : pdf_op) : True -> frame w (drawn w [op]).
Proof. intros _. split; [reflexivity|]. now exists [op]. Qed.

Lemma frame_said (w : World) (ev : st_event) : frame w (said w ev).
Proof. split; [reflexivity|]. exists []. simpl. now rewrite app_nil_r. Qed.

Create HintDb frames.
#[local] Hint Resolve frame_refl frame_trans frame_draw frame_said : frames.

Lemma header_frame (env : Env) : keeps frame (header env).
Proof. apply (keeps_header env frame (fun _ => True)); eauto with frames. Qed.

Lemma bank_details_frame (env : Env) :
  keeps frame (example_bank_details_4columns env).
Proof.
  apply (keeps_bank_details env frame (fun _ => True)); eauto with frames.
Qed.

Lemma closing_frame (env : Env) : keeps frame (closing env).
Proof. apply (keeps_closing env frame (fun _ => True)); eauto with frames. Qed.

(** ** The payment schedule and the terms *)

Lemma payment_schedule_ok (env : Env) (base : Z) (w w' : World) (u : unit) :
  payment_schedule env base w = (w', Ok u) ->
  exists ps' tail,
    derive_all base (payments (invoice_data w)) = Ok ps' /\
    invoice_data w' = set_payments ps' (invoice_data w) /\
    pdf w' = pdf w ++ schedule_head_ops env ++
             flat_map (payment_row_ops env) ps' ++ tail.
Proof.
  intros H. unfold payment_schedule in H. run_ok H.
  apply bind_ok in H as ([] & w1 & Hrows & H).
  rewrite payment_rows_run in Hrows.
  apply (payment_loop env base _ [] _ _ _ eq_refl) in Hrows
    as (ps' & Hd & ->).
  rewrite drawn_data in Hd. rewrite drawn_data, drawn_pdf in H.
  cbn [app length] in H.
  set (w1 := mkWorld _ _ _) in H.
  run_ok H. injection H as <- <-.
  exists ps'. eexists. split; [exact Hd|]. split; [reflexivity|].
  cbn [pdf]. unfold schedule_head_ops. rewrite <- !app_assoc. reflexivity.
Qed.

Lemma payment_term_ok (env : Env) (ip : nat * Payment.t) (w w' : World)
    (u : unit) :
  payment_term env ip w = (w', Ok u) ->
  w' = drawn w (payment_term_ops (ordinal_word (fst ip)) (snd ip)).
Proof.
  destruct ip as [i p]. unfold payment_term, ordinal_word. cbn [fst snd].
  intros H. unfold bind at 1, lift at 1 in H.
  destruct (ordinal (Z.of_nat i)) as [ord|e]; [|discriminate].
  run_ok H. unfold payment_term_ops.
  destruct (Payment.name p) as [|c n];
    destruct (Payment.description p) as [|c' ds];
    run_ok H; apply emit_ok in H as [_ ->]; rewrite drawn_drawn;
    f_equal; flatten_ops; reflexivity.
Qed.

Lemma payment_terms_loop_ok (env : Env) (ips : list (nat * Payment.t))
    (w w' : World) (u : unit) :
  for_each ips (payment_term env) w = (w', Ok u) ->
  w' = drawn w (terms_ops ips).
Proof.
  revert w. induction ips as [|ip ips IH]; intros w; simpl.
  - intros [= <-]. now rewrite drawn_nil.
  - intros H. apply bind_ok in H as ([] & w1 & H1 & H).
    apply payment_term_ok in H1 as ->. apply IH in H as ->.
    now rewrite drawn_drawn.
Qed.

Lemma terms_ok (env : Env) (w w' : World) (u : unit) :
  terms_and_conditions env w = (w', Ok u) ->
  exists head tail,
    invoice_data w' = invoice_data w /\
    pdf w' = pdf w ++ head ++
             terms_ops (enumerate (payments (invoice_data w))) ++ tail.
Proof.
  intros H. unfold terms_and_conditions in H. run_ok H.
  apply bind_ok in H as ([] & w1 & Hterms & H).
  unfold payment_terms in Hterms. rewrite bind_get_data_run in Hterms.
  rewrite drawn_data in Hterms.
  apply payment_terms_loop_ok in Hterms as ->. rewrite drawn_drawn in H.
  apply closing_frame in H as [Hd [tail Hp]].
  rewrite drawn_data in Hd. rewrite drawn_pdf, <- !app_assoc in Hp.
  exists [ SetFont (lit "Bookman") (lit "B") 10;
           cell_op env 0 5 (lit "Terms & Conditions") 0 true [];
           Ln 3; SetFont (lit "Bookman") [] 8 ], tail.
  split; [exact Hd | exact Hp].
Qed.

(** The composer, when it returns: the base price is the sum of the item
    prices, the entries are the derived ones, and the document holds, in
    this order, the totals of the items, the rows of the schedule and the
    sentences of the terms, all for the derived entries. *)
Lemma compose_ok (env : Env) (w w' : World) (doc : document) :
  compose env w = (w', Ok doc) ->
  let d := invoice_data w in
  let sum_price := sum_of Item.price (items d) in
  let sum_paid := sum_of Item.paid (items d) in
  exists ps' pre mid1 mid2 post,
    derive_all sum_price (payments d) = Ok ps' /\
    invoice_data w' = set_payments ps' d /\
    doc = pdf w' /\
    pdf w' = pdf w ++ pre ++
             totals_ops env sum_price sum_paid (vat d) (sum_paid + vat d) ++
             mid1 ++ flat_map (payment_row_ops env) ps' ++
             mid2 ++ terms_ops (enumerate ps') ++ post.
Proof.
  intros H d sum_price sum_paid. unfold compose in H.
  apply bind_ok in H as ([] & w1 & Hh & H).
  apply header_frame in Hh as [Hd1 [l1 Hp1]].
  apply bind_ok in H as (sp & w2 & Hi & H).
  apply items_table_ok in Hi as [-> ->]. rewrite Hd1 in H. fold d in H.
  fold sum_price sum_paid in H.
  apply bind_ok in H as ([] & w3 & Hs & H).
  apply payment_schedule_ok in Hs as (ps' & tail3 & Hder & Hd3 & Hp3).
  cbn [drawn pdf st_log invoice_data] in Hder, Hd3, Hp3.
  rewrite Hd1 in Hder, Hd3. fold d in Hder, Hd3.
  apply bind_ok in H as ([] & w4 & Hb & H).
  apply bank_details_frame in Hb as [Hd4 [l4 Hp4]].
  apply bind_ok in H as ([] & w5 & Ht & H).
  apply terms_ok in Ht as (head5 & tail5 & Hd5 & Hp5).
  unfold output in H. destruct (fault env Output); [discriminate|].
  injection H as <- <-.
  exists ps',
         (l1 ++ items_head_ops env ++ flat_map (item_row_ops env) (items d)),
         (schedule_head_ops env), (tail3 ++ l4 ++ head5), tail5.
  split; [exact Hder|]. split; [congruence|]. split; [reflexivity|].
  rewrite Hp5, Hd4, Hd3, Hp4, Hp3, Hp1.
  cbn [payments set_payments].
  rewrite <- !app_assoc. reflexivity.
Qed.

(** ** [init_pdf] and the [try] of [create_invoice_pdf] *)

Lemma init_pdf_run (env : Env) (w : World) :
  let w0 := mkWorld [AddPage; SetAutoPageBreak true 15]
                    (st_log w ++ init_log env) (invoice_data w) in
  let regular := AddFont (lit "Bookman") [] FONT_BOOKMAN_REGULAR true in
  let bold := AddFont (lit "Bookman") (lit "B") FONT_BOOKMAN_BOLD true in
  init_pdf env w =
  match fault env regular with
  | Some e => (said w0 (StErrorExn init_failure e), Ok None)
  | None =>
      match fault env bold with
      | Some e => (said (drawn w0 [regular]) (StErrorExn init_failure e), Ok None)
      | None =>
          match fault env (SetFont (lit "Bookman") [] 10) with
          | Some e =>
              (said (drawn w0 [regular; bold]) (StErrorExn init_failure e),
               Ok None)
          | None =>
              (mkWorld init_ops (st_log w ++ init_log env) (invoice_data w),
               Ok (Some tt))
          end
      end
  end.
Proof.
  intros w0 regular bold. subst w0 regular bold.
  unfold init_pdf, bind, try_except, new_pdf, emit, st_emit, ret.
  cbn [fault pdf st_log invoice_data app].
  assert (Hlog : (((st_log w ++ [StWrite [SStr (lit "### Font Path Debugging")]])
                   ++ [StWrite [SStr (lit "Current working directory:");
                                SStr (cwd env)]])
                  ++ [StWrite [SStr (lit "FONT_BOOKMAN_REGULAR path:");
                               SStr FONT_BOOKMAN_REGULAR; SStr (lit "Exists?");
                               SBool (path_exists env FONT_BOOKMAN_REGULAR)]])
                 ++ [StWrite [SStr (lit "FONT_BOOKMAN_BOLD path:");
                              SStr FONT_BOOKMAN_BOLD; SStr (lit "Exists?");
                              SBool (path_exists env FONT_BOOKMAN_BOLD)]]
                 = st_log w ++ init_log env).
  { unfold init_log. rewrite <- !app_assoc. reflexivity. }
  rewrite Hlog.
  destruct (load_fault env _ FONT_BOOKMAN_REGULAR); [reflexivity|].
  destruct (load_fault env _ FONT_BOOKMAN_BOLD); [reflexivity|].
  destruct (fpdf_rejects env _); reflexivity.
Qed.

Lemma create_invoice_pdf_run (env : Env) (w : World) :
  create_invoice_pdf env w =
  match init_pdf env w with
  | (w1, Ok (Some _)) =>
      match compose env (drawn w1 [SetMargins 10 10 10; SetAutoPageBreak true 10]) with
      | (w2, Ok doc) => (w2, Ok (Some doc))
      | (w2, Raise e) => (said w2 (StErrorExn compose_failure e), Ok None)
      end
  | (w1, Ok None) => (w1, Ok None)
  | (w1, Raise e) => (w1, Raise e)
  end.
Proof.
  unfold create_invoice_pdf, bind at 1.
  destruct (init_pdf env w) as [w1 [[[]|]|e]]; try reflexivity.
  unfold bind, emit, try_except, ret, st_emit. cbn [fault].
  unfold drawn. cbn [pdf st_log invoice_data]. rewrite <- app_assoc. cbn [app].
  destruct (compose env _) as [w2 [doc|e]]; reflexivity.
Qed.

(** A document comes out of the body of the [try], started after
    [init_pdf] has loaded both fonts. *)
Lemma create_invoice_pdf_some (env : Env) (w w' : World) (doc : document) :
  create_invoice_pdf env w = (w', Ok (Some doc)) ->
  compose env (composing env w) = (w', Ok doc) /\
  file env FONT_BOOKMAN_REGULAR = Readable /\
  file env FONT_BOOKMAN_BOLD = Readable.
Proof.
  rewrite create_invoice_pdf_run, init_pdf_run. cbn [fault]. unfold load_fault.
  destruct (file env FONT_BOOKMAN_REGULAR); try discriminate.
  destruct (fpdf_rejects env _); try discriminate.
  destruct (file env FONT_BOOKMAN_BOLD); try discriminate.
  destruct (fpdf_rejects env _); try discriminate.
  destruct (fpdf_rejects env _); try discriminate.
  change (drawn _ _) with (composing env w).
  destruct (compose env _) as [w2 [d|e]]; intros [= <- <-]. auto.
Qed.

(** No document: the last line of output is the diagnostic. *)
Lemma create_invoice_pdf_none (env : Env) (w w' : World) :
  create_invoice_pdf env w = (w', Ok None) ->
  exists l msg e,
    st_log w' = l ++ [StErrorExn msg e] /\
    (msg = init_failure \/ msg = compose_failure).
Proof.
  rewrite create_invoice_pdf_run, init_pdf_run.
  repeat (destruct (fault env _);
          [intros [= <-]; eexists; exists init_failure; eexists;
           split; [reflexivity | now left]|]).
  destruct (compose env _) as [w2 [d|e]]; intros [= <-].
  eexists. exists compose_failure. eexists. split; [reflexivity | now right].
Qed.

(** A failure of the body of the [try] gives no document, and is shown. *)
Lemma create_invoice_pdf_raise (env : Env) (w w1 : World) (e : exn) :
  fonts_readable env -> well_behaved env ->
  compose env (composing env w) = (w1, Raise e) ->
  create_invoice_pdf env w = (said w1 (StErrorExn compose_failure e), Ok None).
Proof.
  intros [Hr Hb] Hwb Hc. rewrite create_invoice_pdf_run, init_pdf_run.
  cbn [fault]. unfold load_fault. rewrite Hr, Hb.
  repeat match goal with
         | |- context [fpdf_rejects env ?op] =>
             destruct (Hwb op) as [->|[_ (? & ? & ? & ? & ? & [=])]]
         end.
  change (drawn _ _) with (composing env w). now rewrite Hc.
Qed.

Lemma create_invoice_pdf_accepted (env : Env) (w w1 : World) (doc : document) :
  fonts_readable env -> well_behaved env ->
  compose env (composing env w) = (w1, Ok doc) ->
  create_invoice_pdf env w = (w1, Ok (Some doc)).
Proof.
  intros [Hr Hb] Hwb Hc. rewrite create_invoice_pdf_run, init_pdf_run.
  cbn [fault]. unfold load_fault. rewrite Hr, Hb.
  repeat match goal with
         | |- context [fpdf_rejects env ?op] =>
             destruct (Hwb op) as [->|[_ (? & ? & ? & ? & ? & [=])]]
         end.
  change (drawn _ _) with (composing env w). now rewrite Hc.
Qed.


(** ** The composer returns when nothing fails *)

Lemma payment_schedule_accepted (env : Env) (base : Z) (w : World)
    (ps' : list Payment.t) :
  well_behaved env ->
  derive_all base (payments (invoice_data w)) = Ok ps' ->
  exists w', payment_schedule env base w = (w', Ok tt).
Proof.
  intros Hwb Hd. unfold payment_schedule.
  repeat first
    [ rewrite bind_safe_cell_run, cell_op_accepted by assumption
    | rewrite bind_emit_run, plain_accepted by (assumption || reflexivity)
    | rewrite drawn_drawn ].
  unfold bind at 1. rewrite payment_rows_run.
  match goal with
  | |- context [for_each _ _ ?w0] =>
      pose proof (payment_loop_accepted env base
                    (payments (invoice_data w)) [] w0 Hwb eq_refl) as Hl
  end.
  rewrite Hd in Hl. rewrite drawn_data. cbn [length] in Hl. rewrite Hl.
  set (w1 := mkWorld _ _ _).
  repeat first
    [ rewrite bind_emit_run, plain_accepted by (assumption || reflexivity)
    | rewrite bind_get_y_run
    | rewrite drawn_drawn ].
  rewrite emit_accepted by now apply plain_accepted. eauto.
Qed.

Lemma compose_accepted (env : Env) (w : World) (ps' : list Payment.t) :
  well_behaved env ->
  file env LOGO_PATH <> Unreadable ->
  derive_all (sum_of Item.price (items (invoice_data w)))
             (payments (invoice_data w)) = Ok ps' ->
  exists w' doc, compose env w = (w', Ok doc).
Proof.
  intros Hwb Hlogo Hd. unfold compose.
  destruct (succeeds_header env Hwb Hlogo w) as (w1 & [] & Hh).
  rewrite (bind_step _ _ _ _ _ Hh).
  apply header_frame in Hh as [Hd1 _].
  destruct (succeeds_items_table env Hwb w1) as (w2 & sp & Hi).
  rewrite (bind_step _ _ _ _ _ Hi).
  apply items_table_ok in Hi as [-> ->]. rewrite Hd1.
  cbv beta.
  match goal with
  | |- context [bind (payment_schedule env ?b) _ ?w0] =>
      destruct (payment_schedule_accepted env b w0 ps' Hwb) as (w3 & Hs)
  end.
  { rewrite drawn_data, Hd1. exact Hd. }
  rewrite (bind_step _ _ _ _ _ Hs).
  destruct (succeeds_bank_details env Hwb w3) as (w4 & [] & Hb).
  rewrite (bind_step _ _ _ _ _ Hb).
  destruct (succeeds_terms env Hwb w4) as (w5 & [] & Ht).
  rewrite (bind_step _ _ _ _ _ Ht).
  destruct (succeeds_output env Hwb w5) as (w6 & doc & Ho). eauto.
Qed.

(** ** What the composer leaves alone *)

Lemma grows_refl (P : pdf_op -> Prop) (w : World) : grows P w w.
Proof. split; exists []; rewrite app_nil_r; auto. Qed.

Lemma grows_trans (P : pdf_op -> Prop) (a b c : World) :
  grows P a b -> grows P b c -> grows P a c.
Proof.
  intros [(l1 & E1 & F1) (m1 & G1)] [(l2 & E2 & F2) (m2 & G2)]. split.
  - exists (l1 ++ l2). rewrite E2, E1, app_assoc. split; [reflexivity|].
    apply Forall_app; auto.
  - exists (m1 ++ m2). now rewrite G2, G1, app_assoc.
Qed.

Lemma grows_draw (P : pdf_op -> Prop) (w : World) (op : pdf_op) :
  P op -> grows P w (drawn w [op]).
Proof.
  intros HP. split; [exists [op]; auto | exists []; simpl; now rewrite app_nil_r].
Qed.

Lemma grows_said (P : pdf_op -> Prop) (w : World) (ev : st_event) :
  grows P w (said w ev).
Proof.
  split; [exists []; simpl; rewrite app_nil_r; auto | now exists [ev]].
Qed.

Lemma grows_update (P : pdf_op -> Prop) (w : World) (d : InvoiceData) :
  grows P w (mkWorld (pdf w) (st_log w) d).
Proof. split; exists []; simpl; rewrite app_nil_r; auto. Qed.

Lemma same_labels_refl (p : Payment.t) : same_labels p p.
Proof. now repeat split. Qed.

Lemma same_labels_trans (p q r : Payment.t) :
  same_labels p q -> same_labels q r -> same_labels p r.
Proof. unfold same_labels. intros (? & ? & ?) (? & ? & ?). repeat split; congruence. Qed.

Lemma relabelled_refl (w : World) : relabelled w w.
Proof.
  unfold relabelled. repeat split.
  induction (payments (invoice_data w)); constructor;
    auto using same_labels_refl.
Qed.

Lemma relabelled_same_data (w w' : World) :
  invoice_data w' = invoice_data w -> relabelled w w'.
Proof.
  intros H. unfold relabelled. rewrite H. apply (relabelled_refl w).
Qed.

Lemma Forall2_same_labels_trans (l1 l2 l3 : list Payment.t) :
  Forall2 same_labels l1 l2 -> Forall2 same_labels l2 l3 ->
  Forall2 same_labels l1 l3.
Proof.
  intros H. revert l3. induction H; intros l3 H3; inversion H3; subst;
    constructor; eauto using same_labels_trans.
Qed.

Lemma relabelled_trans (a b c : World) :
  relabelled a b -> relabelled b c -> relabelled a c.
Proof.
  unfold relabelled.
  intros (A1 & A2 & A3 & A4 & A5 & A6 & A7 & A8)
         (B1 & B2 & B3 & B4 & B5 & B6 & B7 & B8).
  repeat split; try congruence.
  eapply Forall2_same_labels_trans; eauto.
Qed.

Lemma Forall2_same_labels_insert (ps : list Payment.t) (idx : nat)
    (p q : Payment.t) :
  ps !! idx = Some p -> same_labels p q ->
  Forall2 same_labels ps (<[idx := q]> ps).
Proof.
  revert idx. induction ps as [|a ps IH]; intros [|idx]; simpl;
    try discriminate.
  - intros [= ->] H. constructor; [exact H|].
    clear. induction ps; constructor; auto using same_labels_refl.
  - intros H1 H2. constructor; [apply same_labels_refl | eapply IH; eauto].
Qed.

Lemma relabelled_update (w : World) (idx : nat) (p : Payment.t) (v : Z) :
  payments (invoice_data w) !! idx = Some p ->
  forall upd, upd = Payment.set_percentage v \/ upd = Payment.set_amount v ->
  relabelled w (mkWorld (pdf w) (st_log w)
                 (set_payments (<[idx := upd p]> (payments (invoice_data w)))
                               (invoice_data w))).
Proof.
  intros Hp upd Hupd. unfold relabelled. cbn [invoice_data]. repeat split.
  cbn [payments set_payments].
  eapply Forall2_same_labels_insert; [exact Hp|].
  destruct Hupd as [-> | ->]; now repeat split.
Qed.

(** The composer writes nothing but percentages and amounts, whether it
    returns a document or not. *)
Lemma create_invoice_pdf_relabelled (env : Env) (w w' : World)
    (r : result (option document)) :
  create_invoice_pdf env w = (w', r) -> relabelled w w'.
Proof.
  rewrite create_invoice_pdf_run, init_pdf_run.
  repeat (destruct (fault env _);
          [intros [= <- _]; apply relabelled_same_data; reflexivity|]).
  change (drawn _ _) with (composing env w).
  destruct (compose env (composing env w)) as [w2 r2] eqn:Ec.
  assert (Hk : relabelled (composing env w) w2).
  { revert Ec.
    apply (keeps_compose env relabelled (fun _ => True));
      first [ exact relabelled_refl | exact relabelled_trans
            | exact relabelled_update
            | intros; apply relabelled_same_data; reflexivity
            | intros; exact I ]. }
  destruct r2; intros [= <- _];
    (apply (relabelled_trans _ (composing env w));
     [apply relabelled_same_data; reflexivity|]); [exact Hk|].
  eapply relabelled_trans; [exact Hk|].
  apply relabelled_same_data; reflexivity.
Qed.

(** With its fonts, a logo that is absent or readable, an FPDF that draws
    what it is asked to, and entries that can be derived, the composer
    returns a document. *)
Lemma create_invoice_pdf_returns (env : Env) (w : World)
    (ps' : list Payment.t) :
  fonts_readable env -> well_behaved env ->
  file env LOGO_PATH <> Unreadable ->
  derive_all (sum_of Item.price (items (invoice_data w)))
             (payments (invoice_data w)) = Ok ps' ->
  exists w' doc, create_invoice_pdf env w = (w', Ok (Some doc)).
Proof.
  intros Hf Hwb Hlogo Hd.
  destruct (compose_accepted env (composing env w) ps' Hwb Hlogo Hd)
    as (w' & doc & Hc).
  exists w', doc. now apply create_invoice_pdf_accepted.
Qed.

Lemma derive_all_each (base : Z) (ps ps' : list Payment.t) :
  derive_all base ps = Ok ps' ->
  Forall2 (fun p p' => derive_entry base p = Ok p') ps ps'.
Proof.
  revert ps'. induction ps as [|p ps IH]; intros ps'; simpl.
  - intros [= <-]. constructor.
  - destruct (derive_entry base p) as [p1|e] eqn:E1; [|discriminate]. simpl.
    destruct (derive_all base ps) as [ps1|e]; [|discriminate]. simpl.
    intros [= <-]. constructor; auto.
Qed.

Lemma derive_entry_same_labels (base : Z) (p p' : Payment.t) :
  derive_entry base p = Ok p' -> same_labels p p'.
Proof.
  unfold derive_entry.
  repeat destruct (decide _).
  - destruct (percentage_of _ _); [|discriminate]. intros [= <-]. now repeat split.
  - destruct (amount_of _ _); [|discriminate]. intros [= <-]. now repeat split.
  - intros [= <-]. apply same_labels_refl.
Qed.

(** An entry with an amount and no percentage cannot be derived from a
    base price of zero. *)
Lemma derive_entry_zero_base (p : Payment.t) :
  Payment.percentage p = 0 -> Payment.amount p <> 0 ->
  derive_entry 0 p = Raise ZeroDivisionError.
Proof.
  intros Hp Ha. unfold derive_entry.
  destruct (decide _) as [_|Hn]; [reflexivity | tauto].
Qed.

Lemma derive_all_zero_base (ps ps' : list Payment.t) (p : Payment.t) :
  In p ps -> Payment.percentage p = 0 -> Payment.amount p <> 0 ->
  derive_all 0 ps <> Ok ps'.
Proof.
  intros Hin Hp Ha Hd. apply derive_all_each in Hd.
  induction Hd as [|q q' ps ps' Hq _ IH]; [destruct Hin|].
  destruct Hin as [->|Hin]; [|auto].
  rewrite derive_entry_zero_base in Hq by assumption. discriminate.
Qed.

(** If no entry before the first one with an amount only has a
    percentage only, the failure is the division by zero. *)
Lemma derive_all_zero_division (pre post : list Payment.t) (p : Payment.t) :
  Forall (fun q => ~ (Payment.amount q = 0 /\ Payment.percentage q <> 0)) pre ->
  Payment.percentage p = 0 -> Payment.amount p <> 0 ->
  derive_all 0 (pre ++ p :: post) = Raise ZeroDivisionError.
Proof.
  intros Hpre Hp Ha. induction Hpre as [|q pre Hq _ IH]; simpl.
  - now rewrite derive_entry_zero_base.
  - unfold derive_entry at 1.
    destruct (decide _) as [_|H1]; [reflexivity|].
    destruct (decide _) as [H2|_]; [contradiction|]. simpl. now rewrite IH.
Qed.

(** ** The claims on the composer *)



Lemma percentage_of_rounds (amt base r : Z) :
  percentage_of amt base = Ok r ->
  exists q x,
    PyFloat.int_truediv amt base = Ok q /\ PyFloat.mul_int q 100 = Ok x /\
    nearest_even r (PyFloat.value x).
Proof.
  unfold percentage_of, rbind.
  destruct (PyFloat.int_truediv amt base) as [q|e] eqn:Eq; [|discriminate].
  destruct (PyFloat.mul_int q 100) as [x|e] eqn:Ex; [|discriminate].
  intros H. exists q, x. split; [reflexivity|]. split; [exact Ex|].
  now apply round_nearest_even.
Qed.

Lemma amount_of_rounds (perc base r : Z) :
  amount_of perc base = Ok r ->
  exists q x,
    PyFloat.int_truediv perc 100 = Ok q /\ PyFloat.mul_int q base = Ok x /\
    nearest_even r (PyFloat.value x).
Proof.
  unfold amount_of, rbind.
  destruct (PyFloat.int_truediv perc 100) as [q|e] eqn:Eq; [|discriminate].
  destruct (PyFloat.mul_int q base) as [x|e] eqn:Ex; [|discriminate].
  intros H. exists q, x. split; [reflexivity|]. split; [exact Ex|].
  now apply round_nearest_even.
Qed.

(** C1: the payment loop derives the entries in list order, each as the
    specification words it ([derive_entry]: a missing percentage from the
    amount, a missing amount from the percentage, anything else kept), with
    the sum of the item prices as base price; both formulas round the float
    they compute to a nearest integer, to the even one on a tie.  With base
    price 1000, percentage 0 and amount 300 give percentage 30, and
    percentage 25 and amount 0 give amount 250. *)
Theorem payment_derivation_in_order :
  (forall env base w w' r,
     payment_rows env base w = (w', r) ->
     let ps := payments (invoice_data w) in
     match r with
     | Ok _ =>
         exists ps', derive_all base ps = Ok ps' /\
                     payments (invoice_data w') = ps'
     | Raise e =>
         exists k ps',
           (k < length ps)%nat /\
           derive_all base (take k ps) = Ok ps' /\
           payments (invoice_data w') = ps' ++ drop k ps
     end) /\
  (forall env base w ps',
     well_behaved env ->
     derive_all base (payments (invoice_data w)) = Ok ps' ->
     exists w', payment_rows env base w = (w', Ok tt) /\
                payments (invoice_data w') = ps') /\
  (forall env w w' doc,
     create_invoice_pdf env w = (w', Ok (Some doc)) ->
     let d := invoice_data w in
     derive_all (sum_of Item.price (items d)) (payments d) =
     Ok (payments (invoice_data w'))) /\
  (forall amt base r,
     percentage_of amt base = Ok r ->
     exists q x,
       PyFloat.int_truediv amt base = Ok q /\ PyFloat.mul_int q 100 = Ok x /\
       nearest_even r (PyFloat.value x)) /\
  (forall perc base r,
     amount_of perc base = Ok r ->
     exists q x,
       PyFloat.int_truediv perc 100 = Ok q /\ PyFloat.mul_int q base = Ok x /\
       nearest_even r (PyFloat.value x)) /\
  derive_entry 1000 (pay 0 300) = Ok (pay 30 300) /\
  derive_entry 1000 (pay 25 0) = Ok (pay 25 250).
Proof.
  split; [|split; [|split; [|split; [|split; [|split]]]]].
  - intros env base w w' r H ps. rewrite payment_rows_run in H.
    apply (payment_loop env base _ [] w w' r eq_refl) in H.
    destruct r as [[]|e].
    + destruct H as (ps' & Hd & ->). exists ps'. split; [exact Hd | reflexivity].
    + destruct H as (k & ps' & Hk & Hd & ->). exists k, ps'. repeat split; assumption.
  - intros env base w ps' Hwb Hd. rewrite payment_rows_run.
    pose proof (payment_loop_accepted env base _ [] w Hwb eq_refl) as H.
    rewrite Hd in H. simpl in H. rewrite H. eexists. split; reflexivity.
  - intros env w w' doc H d.
    apply create_invoice_pdf_some in H as [H _].
    apply compose_ok in H as (ps' & pre & mid1 & mid2 & post & Hd & -> & _).
    cbn [composing invoice_data] in *. exact Hd.
  - exact percentage_of_rounds.
  - exact amount_of_rounds.
  - reflexivity.
  - reflexivity.
Qed.

Lemma payment_derivation_in_order_witness :
  exists w',
    payment_rows env_no_logo 1000
      (request (sample_invoice [Item.mk (lit "Item 1") 1000 1000] 0
                               [pay 0 300; pay 25 0])) = (w', Ok tt) /\
    payments (invoice_data w') = [pay 30 300; pay 25 250].
Proof.
  destruct payment_derivation_in_order as (_ & H & _).
  apply (H env_no_logo 1000
           (request (sample_invoice [Item.mk (lit "Item 1") 1000 1000] 0
                                    [pay 0 300; pay 25 0]))).
  - intros op. left. reflexivity.
  - reflexivity.
Defined.

(** C8: when the composer returns a document, the entries of
    [invoice_data] hold the derived values, the rows of the payment table
    and the sentences of the terms are those of these same entries, so both
    show the percentage of each entry; and whatever the outcome, nothing
    but percentages and amounts has been written to [invoice_data]. *)
Theorem derived_values_written_back (env : Env) (w : World) :
  (forall w' r, create_invoice_pdf env w = (w', r) -> relabelled w w') /\
  (forall w' doc,
     create_invoice_pdf env w = (w', Ok (Some doc)) ->
     let ps := payments (invoice_data w') in
     (exists pre mid post,
        doc = pre ++ flat_map (payment_row_ops env) ps ++ mid ++
              terms_ops (enumerate ps) ++ post) /\
     Forall2 (fun p p' =>
                derive_entry (sum_of Item.price (items (invoice_data w))) p
                = Ok p') (payments (invoice_data w)) ps /\
     forall p,
       In p ps ->
       In (cell_op env 40 6 (format_comma_d (Payment.percentage p) ++ lit "%")
                   1 false (lit "L")) doc /\
       In (Write 5 (of_int (Payment.percentage p) ++ lit "%")) doc).
Proof.
  split; [intros w' r; apply create_invoice_pdf_relabelled|].
  intros w' doc H ps. apply create_invoice_pdf_some in H as [H _].
  apply compose_ok in H as (ps' & pre & mid1 & mid2 & post & Hd & Hw & -> & Hp).
  cbn [composing invoice_data pdf] in *.
  assert (Hps : ps = ps') by (unfold ps; now rewrite Hw).
  rewrite Hps. clear ps Hps. split; [|split].
  - eexists. exists mid2, post. rewrite Hp.
    rewrite !(app_assoc _ _ (flat_map _ _ ++ _)). reflexivity.
  - now apply derive_all_each.
  - intros p Hin. rewrite Hp. split.
    + rewrite !in_app_iff. do 4 right. left.
      apply in_flat_map. exists p. split; [exact Hin|]. simpl. tauto.
    + rewrite !in_app_iff. do 6 right. left.
      unfold terms_ops. apply in_flat_map.
      assert (Hi : exists i, In (i, p) (enumerate ps')).
      { unfold enumerate. generalize O. clear - Hin.
        induction ps' as [|a ps' IH]; intros n; [destruct Hin|].
        destruct Hin as [->|Hin]; simpl.
        - exists n. now left.
        - destruct (IH Hin (S n)) as [i Hi]. exists i. now right. }
      destruct Hi as [i Hi]. exists (i, p). split; [exact Hi|].
      unfold payment_term_ops. simpl. tauto.
Qed.

Lemma derived_values_written_back_witness :
  let w := request (sample_invoice [Item.mk (lit "Item 1") 1000 1000] 0
                                   [pay 0 300; pay 0 700]) in
  exists w' doc,
    create_invoice_pdf env_no_logo w = (w', Ok (Some doc)) /\
    (exists pre mid post,
       doc = pre ++
             flat_map (payment_row_ops env_no_logo) (payments (invoice_data w')) ++
             mid ++ terms_ops (enumerate (payments (invoice_data w'))) ++ post) /\
    Forall2 (fun p p' => derive_entry 1000 p = Ok p')
            [pay 0 300; pay 0 700] (payments (invoice_data w')).
Proof.
  intros w.
  destruct (create_invoice_pdf_returns env_no_logo w [pay 30 300; pay 70 700])
    as (w' & doc & H).
  - split; reflexivity.
  - intros op. left. reflexivity.
  - vm_compute. discriminate.
  - reflexivity.
  - exists w', doc. split; [exact H|].
    destruct (derived_values_written_back env_no_logo w) as [_ Hw].
    destruct (Hw w' doc H) as (H1 & H2 & _). split; [exact H1 | exact H2].
Defined.

(** ** Failures *)

Lemma payment_schedule_stops (env : Env) (base : Z) (w : World) (e : exn) :
  well_behaved env ->
  derive_all base (payments (invoice_data w)) = Raise e ->
  exists w', payment_schedule env base w = (w', Raise e).
Proof.
  intros Hwb Hd. unfold payment_schedule.
  repeat first
    [ rewrite bind_safe_cell_run, cell_op_accepted by assumption
    | rewrite bind_emit_run, plain_accepted by (assumption || reflexivity)
    | rewrite drawn_drawn ].
  unfold bind at 1. rewrite payment_rows_run.
  match goal with
  | |- context [for_each _ _ ?w0] =>
      pose proof (payment_loop_accepted env base
                    (payments (invoice_data w)) [] w0 Hwb eq_refl) as Hl
  end.
  rewrite Hd in Hl. destruct Hl as [w' Hl].
  rewrite drawn_data. cbn [length] in Hl. rewrite Hl. eauto.
Qed.

Lemma compose_stops (env : Env) (w : World) (e : exn) :
  well_behaved env ->
  file env LOGO_PATH <> Unreadable ->
  derive_all (sum_of Item.price (items (invoice_data w)))
             (payments (invoice_data w)) = Raise e ->
  exists w', compose env w = (w', Raise e).
Proof.
  intros Hwb Hlogo Hd. unfold compose.
  destruct (succeeds_header env Hwb Hlogo w) as (w1 & [] & Hh).
  rewrite (bind_step _ _ _ _ _ Hh).
  apply header_frame in Hh as [Hd1 _].
  destruct (succeeds_items_table env Hwb w1) as (w2 & sp & Hi).
  rewrite (bind_step _ _ _ _ _ Hi).
  apply items_table_ok in Hi as [-> ->]. rewrite Hd1.
  cbv beta.
  match goal with
  | |- context [bind (payment_schedule env ?b) _ ?w0] =>
      destruct (payment_schedule_stops env b w0 e Hwb) as (w3 & Hs)
  end.
  { rewrite drawn_data, Hd1. exact Hd. }
  unfold bind at 1. rewrite Hs. eauto.
Qed.

Lemma composing_not_image (env : Env) (w : World) :
  Forall (fun op => is_image op = false) (pdf (composing env w)).
Proof. simpl. repeat constructor. Qed.



(** C10: with a sum of item prices of zero, an entry that has an amount
    and no percentage makes the derivation divide by zero; the composer
    catches the error, shows it, and returns no document. *)
Theorem zero_base_price_no_document (env : Env) (w : World) (p : Payment.t) :
  let d := invoice_data w in
  sum_of Item.price (items d) = 0 ->
  In p (payments d) ->
  Payment.percentage p = 0 -> Payment.amount p <> 0 ->
  resolve 0 (Payment.percentage p) (Payment.amount p) = Raise ZeroDivisionError /\
  (exists w' l msg e,
     create_invoice_pdf env w = (w', Ok None) /\
     st_log w' = l ++ [StErrorExn msg e]) /\
  (fonts_readable env -> well_behaved env ->
   file env LOGO_PATH <> Unreadable ->
   derive_all 0 (payments d) = Raise ZeroDivisionError ->
   exists w',
     create_invoice_pdf env w = (w', Ok None) /\
     last (st_log w') = Some (StErrorExn compose_failure ZeroDivisionError)).
Proof.
  intros d Hsum Hin Hp Ha. split; [|split].
  - unfold resolve. rewrite Hp.
    destruct (Z.eqb_spec (Payment.amount p) 0); [contradiction|]. reflexivity.
  - destruct (create_invoice_pdf_total env w) as (w' & o & Ht).
    destruct o as [doc|].
    + exfalso. apply create_invoice_pdf_some in Ht as [Ht _].
      apply compose_ok in Ht as (ps' & ? & ? & ? & ? & Hd & _).
      cbn [composing invoice_data] in Hd. fold d in Hd. rewrite Hsum in Hd.
      revert Hd. now apply (derive_all_zero_base _ _ p).
    + exists w'. rewrite Ht.
      apply create_invoice_pdf_none in Ht as (l & msg & e & Hl & _). eauto.
  - intros Hf Hwb Hlogo Hd.
    destruct (compose_stops env (composing env w) ZeroDivisionError Hwb Hlogo)
      as (w1 & Hc).
    { cbn [composing invoice_data]. fold d. now rewrite Hsum. }
    exists (said w1 (StErrorExn compose_failure ZeroDivisionError)).
    split; [apply create_invoice_pdf_raise; assumption|].
    cbn [said st_log]. apply last_snoc.
Qed.

Lemma zero_base_price_no_document_witness :
  let w := request (sample_invoice [Item.mk (lit "Item 1") 0 0] 0
                                   [pay 100 0; pay 0 5]) in
  exists w',
    create_invoice_pdf env_no_logo w = (w', Ok None) /\
    last (st_log w') = Some (StErrorExn compose_failure ZeroDivisionError).
Proof.
  intros w.
  destruct (zero_base_price_no_document env_no_logo w (pay 0 5))
    as (_ & _ & H).
  - reflexivity.
  - simpl. auto.
  - reflexivity.
  - discriminate.
  - apply H.
    + split; reflexivity.
    + intros op. left. reflexivity.
    + vm_compute. discriminate.
    + reflexivity.
Defined.

(** * Further properties *)

(** ** The numeric parser *)

Lemma Forall_lstrip (P : char -> Prop) (s : str) :
  Forall P s -> Forall P (lstrip s).
Proof.
  induction 1 as [|c s Hc Hs IH]; simpl; [constructor|].
  destruct (isspace c); [exact IH | now constructor].
Qed.

Lemma Forall_strip (P : char -> Prop) (s : str) :
  Forall P s -> Forall P (strip s).
Proof.
  intros H. unfold strip, rstrip.
  apply List.Forall_rev, Forall_lstrip, List.Forall_rev, Forall_lstrip, H.
Qed.


Lemma isdigit_chars (s : str) :
  isdigit s = true -> s <> [] /\ Forall (fun c => isdigit_char c = true) s.
Proof.
  destruct s as [|c s]; [discriminate|]. unfold isdigit.
  intros H. split; [discriminate|].
  apply Forall_forall. intros x Hx. rewrite forallb_forall in H.
  apply H. now apply list_elem_of_In.
Qed.

(** [int] of a text that [isdigit] accepts is never negative. *)
Lemma to_int_isdigit_nonneg (s : str) (z : Z) :
  Forall (fun c => isdigit_char c = true) s -> to_int s = Ok z -> 0 <= z.
Proof.
  intros Hs. apply Forall_strip in Hs. unfold to_int.
  destruct (strip s) as [|c r] eqn:E.
  - destruct (int_digits [] 0 false); [|discriminate]. intros [= <-]. lia.
  - destruct (N.eqb_spec c 0x2D) as [->|_].
    + inversion Hs as [|? ? Hc _]. discriminate Hc.
    + destruct (c =? 0x2B)%N;
        (destruct (int_digits _ 0 false); [|discriminate]); intros [= <-]; lia.
Qed.

(** X1: whatever the text, a number the parser returns is not negative. *)
Theorem parse_int_with_commas_nonneg (text : str) (z : Z) :
  parse_int_with_commas text = Ok z -> 0 <= z.
Proof.
  unfold parse_int_with_commas.
  destruct (isdigit _) eqn:E.
  - apply to_int_isdigit_nonneg. now apply isdigit_chars in E.
  - intros [= <-]. lia.
Qed.

Lemma parse_int_with_commas_nonneg_witness : 0 <= 12300.
Proof.
  apply (parse_int_with_commas_nonneg (lit "12,300")). reflexivity.
Defined.

Lemma replace_app (old : char) (new a b : str) :
  replace old new (a ++ b) = replace old new a ++ replace old new b.
Proof. unfold replace. apply flat_map_app. Qed.


Lemma replace_absent (old : char) (new s : str) :
  Forall (fun c => c <> old) s -> replace old new s = s.
Proof.
  induction 1 as [|c s Hc _ IH]; simpl; [reflexivity|].
  destruct (N.eqb_spec c old); [contradiction|]. simpl. now rewrite IH.
Qed.



Lemma digits_of_N_digits (n : N) : Forall ascii_digit (digits_of_N n).
Proof. apply uint_chars_digits. Qed.

Lemma digits_of_N_nonempty (n : N) : digits_of_N n <> [].
Proof.
  intros H. pose proof (int_digits_of_N n) as Hi. rewrite H in Hi. discriminate.
Qed.


Lemma lstrip_snoc (s : str) (c : char) :
  isspace c = false -> lstrip (s ++ [c]) = lstrip s ++ [c].
Proof.
  intros Hc. induction s as [|a s IH]; simpl.
  - now rewrite Hc.
  - destruct (isspace a); [exact IH | reflexivity].
Qed.


Lemma rstrip_snoc (s : str) (c : char) :
  isspace c = false -> rstrip (s ++ [c]) = s ++ [c].
Proof.
  intros Hc. unfold rstrip. rewrite rev_app_distr. simpl.
  rewrite Hc. simpl. now rewrite rev_involutive.
Qed.







Lemma isdigit_snoc_other (s : str) (c : char) :
  isdigit_char c = false -> isdigit (s ++ [c]) = false.
Proof.
  intros Hc. unfold isdigit.
  destruct (s ++ [c]) as [|a r] eqn:E; [reflexivity|].
  rewrite <- E, forallb_app. simpl. rewrite Hc. apply andb_false_r.
Qed.

(** X4: an amount written with its currency sign, as the invoice and the
    form show it, is read as 0. *)
Theorem parse_int_with_commas_money (z : Z) :
  parse_int_with_commas (money z) = Ok 0.
Proof.
  apply parse_int_with_commas_not_digit. unfold money, CURRENCY_SYMBOL.
  rewrite !replace_app.
  change (replace comma [] (lit " ")) with [0x20%N].
  change (replace comma [] [0x20AC%N]) with [0x20AC%N].
  rewrite app_assoc. unfold strip.
  rewrite lstrip_snoc, rstrip_snoc by reflexivity.
  now apply isdigit_snoc_other.
Qed.

Lemma lstrip_spaces (s : str) :
  Forall (fun c => isspace c = true) s -> lstrip s = [].
Proof. induction 1 as [|c s Hc _ IH]; simpl; [reflexivity | now rewrite Hc]. Qed.

(** X5: a field left blank, or holding only white space and commas, is
    read as 0. *)
Theorem parse_int_with_commas_blank (text : str) :
  Forall blank text -> parse_int_with_commas text = Ok 0.
Proof.
  intros H. apply parse_int_with_commas_not_digit.
  assert (Hs : Forall (fun c => isspace c = true) (replace comma [] text)).
  { induction H as [|c s [Hc|Hc] _ IH]; simpl; [constructor| |].
    - destruct (c =? comma)%N; [exact IH | now constructor].
    - subst c. exact IH. }
  unfold strip. now rewrite (lstrip_spaces _ Hs).
Qed.

Lemma parse_int_with_commas_blank_witness :
  parse_int_with_commas (lit " , ") = Ok 0.
Proof.
  apply parse_int_with_commas_blank. unfold blank.
  constructor; [left; reflexivity|].
  constructor; [right; reflexivity|].
  constructor; [left; reflexivity|]. constructor.
Defined.

(** ** The ordinals *)

(** X6: a negative index counts from the end of the ten words, as a list
    index does, and below -10 it is an [IndexError]. *)
Theorem ordinal_negative_index (n : Z) :
  n < 0 ->
  (-10 <= n -> ordinal n = ordinal (n + 10)) /\
  (n < -10 -> ordinal n = Raise IndexError).
Proof.
  intros Hn. unfold ordinal, py_index. cbn [length ordinals map].
  change (Z.of_nat 10) with 10.
  assert (E0 : (n <? 10) = true) by (apply Z.ltb_lt; lia).
  assert (E1 : (n <? 0) = true) by (apply Z.ltb_lt; lia).
  rewrite E0, E1. split; intros H1.
  - assert (E2 : (n + 10 <? 10) = true) by (apply Z.ltb_lt; lia).
    assert (E3 : (n + 10 <? 0) = false) by (apply Z.ltb_ge; lia).
    rewrite E2, E3. cbv iota. rewrite E3. reflexivity.
  - assert (E3 : (n + 10 <? 0) = true) by (apply Z.ltb_lt; lia).
    rewrite E3. reflexivity.
Qed.

Lemma ordinal_negative_index_witness :
  ordinal (-1) = ordinal 9 /\ ordinal (-11) = Raise IndexError.
Proof.
  split.
  - apply (ordinal_negative_index (-1)); lia.
  - apply (ordinal_negative_index (-11)); lia.
Defined.

Lemma index_of_word (n : Z) :
  0 <= n < 10 -> exists i : nat, n = Z.of_nat i /\ (i < 10)%nat.
Proof. intros H. exists (Z.to_nat n). lia. Qed.

Lemma ordinal_word_of (n : Z) :
  0 <= n < 10 ->
  exists c r, ordinal n = Ok (c :: r) /\ (97 <= c)%N.
Proof.
  intros H. destruct (index_of_word n H) as (i & -> & Hi).
  do 10 (destruct i as [|i];
         [eexists; eexists; split; [reflexivity | vm_compute; discriminate]|]).
  lia.
Qed.

Lemma ordinal_numeral_of (n : Z) :
  10 <= n ->
  exists c r, ordinal n = Ok (c :: r) /\ ascii_digit c.
Proof.
  intros H. unfold ordinal. change (Z.of_nat (length ordinals)) with 10.
  destruct (Z.ltb_spec n 10); [lia|].
  unfold of_int, minus_sign. destruct (Z.ltb_spec (n + 1) 0); [lia|]. simpl app.
  pose proof (digits_of_N_digits (Z.abs_N (n + 1))) as Hd.
  pose proof (digits_of_N_nonempty (Z.abs_N (n + 1))) as Hne.
  destruct (digits_of_N (Z.abs_N (n + 1))) as [|c r]; [contradiction|].
  exists c, (r ++ lit "th"). split; [reflexivity | now inversion Hd].
Qed.

(** X7: two different positions never get the same ordinal. *)
Theorem ordinal_injective (n m : Z) :
  0 <= n -> 0 <= m -> ordinal n = ordinal m -> n = m.
Proof.
  intros Hn Hm H.
  destruct (Z.lt_ge_cases n 10) as [Hn1|Hn1];
    destruct (Z.lt_ge_cases m 10) as [Hm1|Hm1].
  - destruct (index_of_word n) as (i & -> & Hi); [lia|].
    destruct (index_of_word m) as (j & -> & Hj); [lia|].
    clear - H Hi Hj.
    do 10 (destruct i as [|i];
           [do 10 (destruct j as [|j];
                   [first [reflexivity | vm_compute in H; discriminate H]|]);
            lia|]).
    lia.
  - destruct (ordinal_word_of n) as (c & r & Hw & Hc); [lia|].
    destruct (ordinal_numeral_of m Hm1) as (c' & r' & Hw' & Hc').
    rewrite Hw, Hw' in H. injection H as -> _.
    unfold ascii_digit in Hc'. lia.
  - destruct (ordinal_word_of m) as (c & r & Hw & Hc); [lia|].
    destruct (ordinal_numeral_of n Hn1) as (c' & r' & Hw' & Hc').
    rewrite Hw, Hw' in H. injection H as -> _.
    unfold ascii_digit in Hc'. lia.
  - unfold ordinal in H. change (Z.of_nat (length ordinals)) with 10 in H.
    destruct (Z.ltb_spec n 10); [lia|]. destruct (Z.ltb_spec m 10); [lia|].
    injection H as H. apply app_inv_tail in H.
    apply (f_equal to_int) in H. rewrite !to_int_of_int in H.
    injection H as H. lia.
Qed.

Lemma ordinal_injective_witness : 3 = 3.
Proof. apply ordinal_injective; [lia | lia | reflexivity]. Defined.

(** ** [safe_cell] *)

(** X8: [safe_cell] makes the call with [new_x] and [new_y]; only when
    FPDF answers with a [TypeError] does it fall back on [ln=1], and the
    outcome of that call is then its own; any other exception goes
    through; without a new line it is the call with [ln=0]. *)
Theorem safe_cell_fallback (env : Env) (w h : Z) (txt : str) (border : Z)
    (align : str) (wd : World) :
  let modern := Cell w h txt border NewXY align in
  let legacy := Cell w h txt border (LnArg 1) align in
  (fault env modern = None ->
   safe_cell env w h txt border true align wd = (drawn wd [modern], Ok tt)) /\
  (fault env modern = Some TypeError ->
   safe_cell env w h txt border true align wd = emit env legacy wd) /\
  (forall e, fault env modern = Some e -> e <> TypeError ->
   safe_cell env w h txt border true align wd = (wd, Raise e)) /\
  safe_cell env w h txt border false align wd =
  emit env (Cell w h txt border (LnArg 0) align) wd.
Proof.
  intros modern legacy. rewrite !safe_cell_emit. unfold cell_op.
  fold modern legacy. repeat split.
  - intros H. rewrite H. now apply emit_accepted.
  - intros H. now rewrite H.
  - intros e H He. rewrite H. unfold emit.
    destruct e; try contradiction; now rewrite H.
Qed.

Lemma safe_cell_fallback_witness :
  safe_cell env_old_fpdf 60 5 (lit "ASHI STUDIO SAS") 0 true [] (mkWorld [] [] (sample_invoice [] 0 [])) =
  (mkWorld [Cell 60 5 (lit "ASHI STUDIO SAS") 0 (LnArg 1) []] []
           (sample_invoice [] 0 []), Ok tt).
Proof.
  destruct (safe_cell_fallback env_old_fpdf 60 5 (lit "ASHI STUDIO SAS") 0 []
              (mkWorld [] [] (sample_invoice [] 0 []))) as (_ & H & _).
  rewrite H; reflexivity.
Defined.

(** ** The download *)

(** X9: the name of the downloaded file holds no slash, whatever the
    invoice number, and is as long as the number plus the fixed parts. *)
Theorem download_file_name_no_slash (invoice_number : str) :
  Forall (fun c => c <> 0x2F%N) (download_file_name invoice_number) /\
  length (download_file_name invoice_number) =
  (length invoice_number + 17)%nat.
Proof.
  unfold download_file_name. split.
  - apply Forall_app. split; [repeat constructor; try discriminate|].
    apply Forall_app. split; [|repeat constructor; try discriminate].
    induction invoice_number as [|c s IH]; simpl; [constructor|].
    destruct (N.eqb_spec c 0x2F); simpl; constructor; auto; discriminate.
  - rewrite !length_app.
    assert (H : length (replace 0x2F%N (lit "_") invoice_number)
                = length invoice_number).
    { induction invoice_number as [|c s IH]; simpl; [reflexivity|].
      destruct (c =? 0x2F)%N; simpl; now rewrite IH. }
    rewrite H. simpl. lia.
Qed.

(** ** [init_pdf] *)

(** X10: [init_pdf] never raises.  It starts a new FPDF object, writes its
    four lines of font debugging after what was on the page, leaves the
    data alone, and either returns the object, with both fonts loaded, or
    returns nothing after an error line as last line. *)
Theorem init_pdf_outcome (env : Env) (w w' : World)
    (r : result (option unit)) :
  init_pdf env w = (w', r) ->
  invoice_data w' = invoice_data w /\
  (exists l, st_log w' = st_log w ++ init_log env ++ l) /\
  ((r = Ok (Some tt) /\ pdf w' = init_ops /\
    file env FONT_BOOKMAN_REGULAR = Readable /\
    file env FONT_BOOKMAN_BOLD = Readable) \/
   (r = Ok None /\
    exists e, last (st_log w') = Some (StErrorExn init_failure e))).
Proof.
  rewrite init_pdf_run. cbn [fault]. unfold load_fault.
  assert (Hfail : forall w0 e,
            st_log w0 = st_log w ++ init_log env ->
            invoice_data w0 = invoice_data w ->
            (said w0 (StErrorExn init_failure e), Ok None) = (w', r) ->
            invoice_data w' = invoice_data w /\
            (exists l, st_log w' = st_log w ++ init_log env ++ l) /\
            ((r = Ok (Some tt) /\ pdf w' = init_ops /\
              file env FONT_BOOKMAN_REGULAR = Readable /\
              file env FONT_BOOKMAN_BOLD = Readable) \/
             (r = Ok None /\
              exists e, last (st_log w') = Some (StErrorExn init_failure e)))).
  { intros w0 e Hl Hd [= <- <-]. cbn [said invoice_data st_log].
    split; [exact Hd|]. split.
    - exists [StErrorExn init_failure e]. now rewrite Hl, app_assoc.
    - right. split; [reflexivity|]. exists e. apply last_snoc. }
  destruct (file env FONT_BOOKMAN_REGULAR) eqn:Er;
    try (apply Hfail; reflexivity).
  destruct (fpdf_rejects env _); [apply Hfail; reflexivity|].
  destruct (file env FONT_BOOKMAN_BOLD) eqn:Eb;
    try (apply Hfail; reflexivity).
  destruct (fpdf_rejects env _); [apply Hfail; reflexivity|].
  destruct (fpdf_rejects env _); [apply Hfail; reflexivity|].
  intros [= <- <-]. cbn [invoice_data st_log pdf].
  split; [reflexivity|]. split.
  - exists []. now rewrite app_nil_r.
  - left. auto.
Qed.

Lemma init_pdf_outcome_witness :
  exists w',
    init_pdf env_no_font (request (sample_invoice [] 0 [])) = (w', Ok None) /\
    exists e, last (st_log w') = Some (StErrorExn init_failure e).
Proof.
  destruct (init_pdf env_no_font (request (sample_invoice [] 0 [])))
    as [w' r] eqn:E.
  destruct (init_pdf_outcome _ _ _ _ E) as (_ & _ & [(-> & _ & Hr & _)|[-> H]]).
  - vm_compute in Hr. discriminate.
  - exists w'. split; [reflexivity | exact H].
Defined.

(** ** The logo *)

Lemma header_bad_logo (env : Env) (w : World) :
  file env LOGO_PATH = Unreadable ->
  compose env w = (w, Raise RuntimeError).
Proof.
  intros Hlogo. unfold compose, header, path_exists. rewrite Hlogo.
  unfold bind at 1 2, emit at 1. cbn [fault]. unfold load_fault.
  rewrite Hlogo. reflexivity.
Qed.

(** X11: a logo file that exists and cannot be read ends the generation:
    nothing is drawn after the set-up, the data is untouched, and the
    result is no document, with the error shown.  (An absent logo is only
    a warning.) *)
Theorem unreadable_logo_no_document (env : Env) (w : World) :
  file env LOGO_PATH = Unreadable ->
  fonts_readable env -> well_behaved env ->
  create_invoice_pdf env w =
  (said (composing env w) (StErrorExn compose_failure RuntimeError), Ok None).
Proof.
  intros Hlogo Hf Hwb. apply create_invoice_pdf_raise; try assumption.
  now apply header_bad_logo.
Qed.

Lemma unreadable_logo_no_document_witness :
  let w := request (sample_invoice sample_items 150 [pay 100 0]) in
  create_invoice_pdf env_bad_logo w =
  (said (composing env_bad_logo w) (StErrorExn compose_failure RuntimeError),
   Ok None).
Proof.
  intros w. apply unreadable_logo_no_document.
  - reflexivity.
  - split; reflexivity.
  - intros op. left. reflexivity.
Defined.

(** X12: when the logo can be read and a document comes out, the image is
    the first call of the composition and the only image of the document;
    it is 30 mm wide and centred on the 210 mm of the page. *)
Theorem logo_placed_once (env : Env) (w w' : World) (doc : document) :
  file env LOGO_PATH = Readable ->
  create_invoice_pdf env w = (w', Ok (Some doc)) ->
  (exists rest,
     doc = pdf (composing env w) ++ logo_image :: rest /\
     Forall (fun op => is_image op = false) rest) /\
  Forall (fun op => is_image op = false) (pdf (composing env w)) /\
  match logo_image with
  | Image _ x _ width => (width == 30 /\ x + width / 2 == 210 / 2)%Q
  | _ => False
  end.
Proof.
  intros Hlogo H. apply create_invoice_pdf_some in H as [H _].
  assert (Hdoc : doc = pdf w').
  { apply compose_ok in H as (? & ? & ? & ? & ? & _ & _ & -> & _).
    reflexivity. }
  assert (Hpath : path_exists env LOGO_PATH = true)
    by (unfold path_exists; now rewrite Hlogo).
  apply (keeps_compose_logo env
           (grows (fun op => is_image op = false))
           (fun op => is_image op = false)) in H;
    first [ exact Hpath | exact (grows_refl _) | exact (grows_trans _)
          | exact (grows_said _) | exact (grows_draw _)
          | intros; apply grows_update
          | intros; assumption
          | idtac ].
  destruct H as [_ [(l & Hl & Fl) _]]. split; [|split].
  - exists l. split; [|exact Fl]. rewrite Hdoc, Hl. cbn [drawn pdf].
    now rewrite <- app_assoc.
  - apply composing_not_image.
  - split; reflexivity.
Qed.

Lemma logo_placed_once_witness :
  exists w' doc rest,
    create_invoice_pdf env_complete
      (request (sample_invoice sample_items 150 [pay 100 0])) =
    (w', Ok (Some doc)) /\
    doc = pdf (composing env_complete
                 (request (sample_invoice sample_items 150 [pay 100 0]))) ++
          logo_image :: rest /\
    Forall (fun op => is_image op = false) rest.
Proof.
  destruct (create_invoice_pdf env_complete
              (request (sample_invoice sample_items 150 [pay 100 0])))
    as [w' [[doc|]|e]] eqn:E; try (vm_compute in E; discriminate).
  destruct (logo_placed_once env_complete _ w' doc eq_refl E)
    as [(rest & Hdoc & Hrest) _].
  exists w', doc, rest. auto.
Defined.

(** ** What the derivation leaves alone *)

Lemma supplied_kept_refl (p : Payment.t) : supplied_kept p p.
Proof. split; [apply same_labels_refl | auto]. Qed.

Lemma supplied_kept_trans (p q r : Payment.t) :
  supplied_kept p q -> supplied_kept q r -> supplied_kept p r.
Proof.
  intros (L1 & P1 & A1 & Z1) (L2 & P2 & A2 & Z2). split; [|split; [|split]].
  - eapply same_labels_trans; eauto.
  - intros H. rewrite <- (P1 H). apply P2. now rewrite (P1 H).
  - intros H. rewrite <- (A1 H). apply A2. now rewrite (A1 H).
  - intros Hp Ha. specialize (Z1 Hp Ha). subst q. auto.
Qed.

Lemma derive_entry_supplied_kept (base : Z) (p p' : Payment.t) :
  derive_entry base p = Ok p' -> supplied_kept p p'.
Proof.
  intros H. split; [eapply derive_entry_same_labels, H|].
  revert H. unfold derive_entry.
  destruct (decide _) as [[Hp Ha]|N1].
  - destruct (percentage_of _ _); [|discriminate]. intros [= <-].
    destruct p; simpl in *. repeat split; auto; tauto.
  - destruct (decide _) as [[Ha Hp]|N2].
    + destruct (amount_of _ _); [|discriminate]. intros [= <-].
      destruct p; simpl in *. repeat split; auto; tauto.
    + intros [= <-]. repeat split; auto.
Qed.

Lemma Forall2_supplied_kept_refl (ps : list Payment.t) :
  Forall2 supplied_kept ps ps.
Proof. induction ps; constructor; auto using supplied_kept_refl. Qed.

Lemma Forall2_supplied_kept_trans (a b c : list Payment.t) :
  Forall2 supplied_kept a b -> Forall2 supplied_kept b c ->
  Forall2 supplied_kept a c.
Proof.
  intros H. revert c. induction H; intros c Hc; inversion Hc; subst;
    constructor; eauto using supplied_kept_trans.
Qed.

Lemma derive_all_supplied_kept (base : Z) (ps ps' : list Payment.t) :
  derive_all base ps = Ok ps' -> Forall2 supplied_kept ps ps'.
Proof.
  intros H. apply derive_all_each in H.
  induction H; constructor; eauto using derive_entry_supplied_kept.
Qed.

Lemma payment_rows_supplied_kept (env : Env) (base : Z) :
  keeps (fun a b => Forall2 supplied_kept (payments (invoice_data a))
                                          (payments (invoice_data b)))
        (payment_rows env base).
Proof.
  intros w w' r. rewrite payment_rows_run. intros H.
  apply (payment_loop env base _ [] w w' r eq_refl) in H.
  destruct r as [[]|e].
  - destruct H as (rest' & Hder & ->). cbn [invoice_data].
    destruct (invoice_data w); cbn. now apply derive_all_supplied_kept in Hder.
  - destruct H as (k & rest' & _ & Hder & ->).
    apply derive_all_supplied_kept in Hder.
    destruct (invoice_data w) as [? ? ? ? ? ? ? ps]; cbn in *.
    rewrite <- (take_drop k ps) at 1.
    apply Forall2_app; [exact Hder | apply Forall2_supplied_kept_refl].
Qed.

(** X13: whatever the outcome of a generation, a percentage or an amount
    that was supplied (not zero) is never overwritten, name, date and
    description are kept, and an entry with neither is left as it is; the
    number and the order of the entries do not change. *)
Theorem supplied_values_never_overwritten (env : Env) (w w' : World)
    (r : result (option document)) :
  create_invoice_pdf env w = (w', r) ->
  Forall2 supplied_kept (payments (invoice_data w))
                        (payments (invoice_data w')).
Proof.
  set (R := fun a b : World =>
              Forall2 supplied_kept (payments (invoice_data a))
                                    (payments (invoice_data b))).
  assert (Hsame : forall a b, invoice_data b = invoice_data a -> R a b).
  { intros a b E. unfold R. rewrite E. apply Forall2_supplied_kept_refl. }
  assert (Htrans : forall a b c, R a b -> R b c -> R a c)
    by (intros a b c; apply Forall2_supplied_kept_trans).
  change (create_invoice_pdf env w = (w', r) -> R w w').
  rewrite create_invoice_pdf_run, init_pdf_run.
  repeat (destruct (fault env _);
          [intros [= <- _]; apply Hsame; reflexivity|]).
  change (drawn _ _) with (composing env w).
  destruct (compose env (composing env w)) as [w2 r2] eqn:Ec.
  assert (Hk : R (composing env w) w2).
  { revert Ec.
    apply (keeps_compose_rows env R (fun _ => True));
      first [ exact Htrans
            | exact (payment_rows_supplied_kept env)
            | intros; apply Hsame; reflexivity
            | intros; exact I ]. }
  destruct r2; intros [= <- _];
    (apply (Htrans _ (composing env w)); [apply Hsame; reflexivity|]);
    [exact Hk|].
  eapply Htrans; [exact Hk|]. apply Hsame; reflexivity.
Qed.

Lemma supplied_values_never_overwritten_witness :
  exists w' r,
    create_invoice_pdf env_no_logo
      (request (sample_invoice sample_items 150 [pay 30 0; pay 0 2100])) =
    (w', r) /\
    Forall2 supplied_kept [pay 30 0; pay 0 2100]
            (payments (invoice_data w')).
Proof.
  destruct (create_invoice_pdf env_no_logo
              (request (sample_invoice sample_items 150
                          [pay 30 0; pay 0 2100]))) as [w' r] eqn:E.
  exists w', r. split; [reflexivity|].
  exact (supplied_values_never_overwritten _ _ _ _ E).
Defined.

(** ** The button and the download *)

Lemma sum_of_Permutation {A} (f : A -> Z) (l l' : list A) :
  Permutation l l' -> sum_of f l = sum_of f l'.
Proof. induction 1; simpl; lia. Qed.

Lemma check_entries_some_empty (ps : list Payment.t) (errs : list str) :
  check_entries ps errs =
  if forallb (fun p => negb ((Payment.percentage p =? 0) &&
                             (Payment.amount p =? 0))) ps
  then errs
  else errs ++
       [lit "Each payment must have a non-zero percentage or a non-zero amount."].
Proof.
  induction ps as [|p ps IH]; simpl; [reflexivity|].
  destruct ((Payment.percentage p =? 0) && (Payment.amount p =? 0));
    simpl; [reflexivity | exact IH].
Qed.

Lemma forallb_Permutation {A} (f : A -> bool) (l l' : list A) :
  Permutation l l' -> forallb f l = forallb f l'.
Proof.
  induction 1; simpl; try congruence.
  now destruct (f x), (f y).
Qed.

(** X14: the order in which the payments are entered does not matter to the
    validation: a rearranged plan gets the same errors, so it is accepted
    or rejected alike. *)
Theorem validate_any_order (sum_price : Z) (ps ps' : list Payment.t) :
  Permutation ps ps' -> validate sum_price ps = validate sum_price ps'.
Proof.
  intros H. unfold validate.
  rewrite !py_sum_sum_of, !check_entries_some_empty.
  rewrite (sum_of_Permutation Payment.percentage _ _ H),
          (sum_of_Permutation Payment.amount _ _ H),
          (forallb_Permutation _ _ _ H).
  reflexivity.
Qed.

Lemma validate_any_order_witness :
  validate 3000 [pay 30 0; pay 0 2100] = validate 3000 [pay 0 2100; pay 30 0].
Proof. apply validate_any_order. apply perm_swap. Defined.

Lemma create_invoice_pdf_not_empty (env : Env) (w w' : World)
    (doc : document) :
  create_invoice_pdf env w = (w', Ok (Some doc)) -> doc <> [].
Proof.
  intros H. apply create_invoice_pdf_some in H as [H _].
  apply compose_ok in H as (? & ? & ? & ? & ? & _ & _ & -> & ->).
  discriminate.
Qed.

Lemma generate_invoice_generated (env : Env) (w w' : World)
    (b : option document) :
  generate_invoice env w = (w', Ok (Generated b)) ->
  create_invoice_pdf env w = (w', Ok b).
Proof.
  unfold generate_invoice. rewrite bind_get_data_run.
  destruct (validate _ _) as [|err errs].
  - unfold bind, ret. destruct (create_invoice_pdf env w) as [w1 [b1|e]];
      [|discriminate]. now intros [= <- <-].
  - unfold bind. destruct (for_each _ _ w) as [w1 [[]|e]]; discriminate.
Qed.

(** X15: after a click the download is offered exactly when the click
    generated a document: no document that [create_invoice_pdf] returns is
    dropped by the test of line 431, and a rejected click or a failed
    generation offers nothing.  The file is offered under the name made
    from the invoice number, as a PDF. *)
Theorem download_iff_document (env : Env) (w w' : World) (c : click)
    (invoice_number : str) :
  generate_invoice env w = (w', Ok c) ->
  (forall doc,
     c = Generated (Some doc) <->
     download_button (pdf_data invoice_number c) =
     Some (doc, download_file_name invoice_number, lit "application/pdf")) /\
  ((forall doc, c <> Generated (Some doc)) <->
   download_button (pdf_data invoice_number c) = None).
Proof.
  intros H.
  assert (Hne : forall doc, c = Generated (Some doc) -> doc <> []).
  { intros doc ->. apply generate_invoice_generated in H.
    eapply create_invoice_pdf_not_empty, H. }
  destruct c as [errs|[[|op doc]|]]; simpl.
  - split; [intros doc; split; discriminate|]. split; [reflexivity|].
    intros _ doc. discriminate.
  - exfalso. now apply (Hne [] eq_refl).
  - split.
    + intros doc0. split; intros [= <-]; reflexivity.
    + split; [intros H0; now destruct (H0 (op :: doc)) | discriminate].
  - split; [intros doc; split; discriminate|]. split; [reflexivity|].
    intros _ doc. discriminate.
Qed.

Lemma download_iff_document_witness :
  exists w' doc,
    generate_invoice env_no_logo
      (request (sample_invoice sample_items 150 [pay 100 0])) =
    (w', Ok (Generated (Some doc))) /\
    download_button (pdf_data (lit "369/2025") (Generated (Some doc))) =
    Some (doc, lit "ashi_invoice_369_2025.pdf", lit "application/pdf").
Proof.
  destruct (generate_invoice env_no_logo
              (request (sample_invoice sample_items 150 [pay 100 0])))
    as [w' [[errs|[doc|]]|e]] eqn:E; try (vm_compute in E; discriminate).
  exists w', doc. split; [reflexivity|].
  exact (proj1 (proj1 (download_iff_document _ _ _ _ (lit "369/2025") E) doc)
               eq_refl).
Defined.

(** ** The form *)

Lemma bind_st_emit_run {B} (ev : st_event) (k : unit -> M B) (w : World) :
  bind (st_emit ev) k w = k tt (said w ev).
Proof. reflexivity. Qed.

Lemma bind_lift_run {A B} (r : result A) (k : A -> M B) (w : World) :
  bind (lift r) k w =
  match r with Ok a => k a w | Raise e => (w, Raise e) end.
Proof. unfold bind, lift. now destruct r. Qed.

(** The lines of lines 350-355. *)
Lemma show_totals_run (its : list Item.t) (vat_str : str) (w : World) :
  show_totals its vat_str w =
  match parse_int_with_commas vat_str with
  | Ok vat_val =>
      (mkWorld (pdf w)
         (st_log w ++
          [ StWrite [SStr (lit "---")];
            StWrite [SStr (lit "**Total Price:** " ++
                           money (sum_of Item.price its))];
            StWrite [SStr (lit "**Total To Be Paid:** " ++
                           money (sum_of Item.paid its))];
            StWrite [SStr (lit "**VAT:** " ++ money vat_val)];
            StWrite [SStr (lit "**Final To Be Paid (with VAT):** " ++
                           money (sum_of Item.paid its + vat_val))];
            StWrite [SStr (lit "---")] ])
         (invoice_data w), Ok vat_val)
  | Raise e => (w, Raise e)
  end.
Proof.
  unfold show_totals. rewrite bind_lift_run, !py_sum_sum_of.
  destruct (parse_int_with_commas vat_str) as [v|e]; [|reflexivity].
  rewrite !bind_st_emit_run. unfold ret, said. cbn [pdf st_log invoice_data].
  now rewrite <- !app_assoc.
Qed.

Lemma log_grows_compose (env : Env) :
  keeps (fun a b => exists l, st_log b = st_log a ++ l) (compose env).
Proof.
  apply (keeps_compose env _ (fun _ => True));
    first [ intros; exact I
          | intros a b c [l1 E1] [l2 E2]; exists (l1 ++ l2);
            now rewrite E2, E1, app_assoc
          | intros w0 ev; now exists [ev]
          | intros; exists []; cbn; now rewrite app_nil_r ].
Qed.

Lemma create_invoice_pdf_log (env : Env) (w w' : World)
    (r : result (option document)) :
  create_invoice_pdf env w = (w', r) -> exists l, st_log w' = st_log w ++ l.
Proof.
  rewrite create_invoice_pdf_run, init_pdf_run.
  repeat (destruct (fault env _);
          [intros [= <- _]; cbn; rewrite <- app_assoc; eauto|]).
  change (drawn _ _) with (composing env w).
  destruct (compose env (composing env w)) as [w2 r2] eqn:Ec.
  apply log_grows_compose in Ec as [l Hl]. cbn [composing st_log] in Hl.
  destruct r2; intros [= <- _]; cbn [said st_log]; rewrite Hl;
    rewrite <- ?app_assoc; eauto.
Qed.


(** What a run of the script with a click comes to. *)
Lemma run_script_click (env : Env) (f : form_input) (w : World) :
  in_clicked f = true ->
  run_script env f w =
  match form_items (in_items f) [] with
  | Raise e =>
      (said w (StWrite [SStr (lit "**Prices** must sum up for Payment Plan to match the **Total Price** (not the total to be paid).")]),
       Raise e)
  | Ok its =>
      let w1 := said w (StWrite [SStr (lit "**Prices** must sum up for Payment Plan to match the **Total Price** (not the total to be paid).")]) in
      match show_totals its (in_vat f) w1 with
      | (w2, Raise e) => (w2, Raise e)
      | (w2, Ok vat_val) =>
          match form_payments (in_payments f) [] with
          | Raise e => (w2, Raise e)
          | Ok ps =>
              match generate_invoice env
                      (mkWorld (pdf w2) (st_log w2)
                         (mkInvoiceData (in_invoice_number f)
                            (in_invoice_date f) (in_client_name f)
                            (in_country f) (in_phone f) its vat_val ps)) with
              | (w3, Ok c) => (w3, Ok (Some c))
              | (w3, Raise e) => (w3, Raise e)
              end
          end
      end
  end.
Proof.
  intros Hc. unfold run_script. rewrite bind_st_emit_run, bind_lift_run.
  destruct (form_items _ _) as [its|e]; [|reflexivity]. cbv zeta.
  unfold bind at 1. destruct (show_totals _ _ _) as [w2 [v|e]]; [|reflexivity].
  rewrite bind_lift_run. destruct (form_payments _ _) as [ps|e]; [|reflexivity].
  rewrite Hc. unfold bind, put_data, ret.
  destruct (generate_invoice _ _) as [w3 [c|e]]; reflexivity.
Qed.

(** X16: what the form shows is what the invoice prints: when a click
    produces a document, the total price and the final amount with VAT
    that the form displayed are, text for text, those of the cells of the
    items table. *)
Theorem form_totals_are_printed (env : Env) (f : form_input) (w w' : World)
    (doc : document) :
  run_script env f w = (w', Ok (Some (Generated (Some doc)))) ->
  exists total_price final_total,
    In (StWrite [SStr (lit "**Total Price:** " ++ total_price)]) (st_log w') /\
    In (cell_op env 50 6 total_price 0 false (lit "L")) doc /\
    In (StWrite [SStr (lit "**Final To Be Paid (with VAT):** " ++ final_total)])
       (st_log w') /\
    In (cell_op env 40 6 final_total 0 true (lit "R")) doc.
Proof.
  intros H.
  assert (Hc : in_clicked f = true).
  { revert H. unfold run_script. rewrite bind_st_emit_run, bind_lift_run.
    destruct (form_items _ _); [|discriminate]. unfold bind at 1.
    destruct (show_totals _ _ _) as [? [?|?]]; [|discriminate].
    rewrite bind_lift_run. destruct (form_payments _ _); [|discriminate].
    destruct (in_clicked f); [reflexivity | discriminate]. }
  rewrite (run_script_click env f w Hc) in H.
  destruct (form_items _ _) as [its|e]; [|discriminate]. cbv zeta in H.
  rewrite show_totals_run in H.
  destruct (parse_int_with_commas (in_vat f)) as [v|e]; [|discriminate].
  destruct (form_payments _ _) as [ps|e]; [|discriminate].
  destruct (generate_invoice _ _) as [w3 [c|e]] eqn:Eg; [|discriminate].
  injection H as <- ->.
  apply generate_invoice_generated in Eg.
  pose proof (create_invoice_pdf_log _ _ _ _ Eg) as [l Hl].
  cbn [st_log said] in Hl.
  apply create_invoice_pdf_some in Eg as [Eg _].
  apply compose_ok in Eg as (ps' & pre & mid1 & mid2 & post & _ & _ & -> & ->).
  cbn [composing invoice_data items vat].
  exists (money (sum_of Item.price its)), (money (sum_of Item.paid its + v)).
  rewrite Hl, !in_app_iff. unfold totals_ops. simpl. tauto.
Qed.

Lemma form_totals_are_printed_witness :
  exists w' doc final_total,
    run_script env_no_logo
      (mkFormInput (lit "369/2025") (lit "Pr Noura Abdullah Faisal")
         (lit "Kuwait") (lit "+965 1234 5678") (lit "03/11/2026") (lit "150")
         [(lit "Item 1", lit "1,000", lit "500")]
         [mkPaymentInput (lit "full payment") None (lit "100") (lit "0") []]
         true)
      (request (sample_invoice [] 0 [])) =
    (w', Ok (Some (Generated (Some doc)))) /\
    In (StWrite [SStr (lit "**Final To Be Paid (with VAT):** " ++ final_total)])
       (st_log w') /\
    In (cell_op env_no_logo 40 6 final_total 0 true (lit "R")) doc.
Proof.
  match goal with
  | |- exists w' doc ft, ?m = _ /\ _ =>
      destruct m as [w' [[[errs|[doc|]]|]|e]] eqn:E;
        try (vm_compute in E; discriminate)
  end.
  destruct (form_totals_are_printed _ _ _ _ _ E) as (tp & ft & _ & _ & H1 & H2).
  exists w', doc, ft. auto.
Defined.


Lemma parse_int_with_commas_ok_nonneg (text : str) (z : Z) :
  parse_int_with_commas text = Ok z -> 0 <= z.
Proof.
  unfold parse_int_with_commas. destruct (isdigit _) eqn:E.
  - apply to_int_isdigit_nonneg. now apply isdigit_chars in E.
  - intros [= <-]. lia.
Qed.

Lemma parse_int_with_commas_value_error (text : str) (e : exn) :
  parse_int_with_commas text = Raise e -> e = ValueError.
Proof.
  unfold parse_int_with_commas. destruct (isdigit _); [|discriminate].
  unfold to_int. destruct (strip _) as [|c r].
  - destruct (int_digits _ _ _); [discriminate | now intros [= <-]].
  - destruct (c =? 0x2D)%N; [|destruct (c =? 0x2B)%N];
      (destruct (int_digits _ _ _); [discriminate | now intros [= <-]]).
Qed.



Lemma form_items_value_error (rows : list item_input) (acc : list Item.t)
    (e : exn) :
  form_items rows acc = Raise e -> e = ValueError.
Proof.
  revert acc. induction rows as [|[[d p] q] rows IH]; intros acc; simpl;
    [discriminate|].
  destruct (parse_int_with_commas p) eqn:Ep; simpl;
    [|intros [= <-]; eapply parse_int_with_commas_value_error, Ep].
  destruct (parse_int_with_commas q) eqn:Eq; simpl;
    [|intros [= <-]; eapply parse_int_with_commas_value_error, Eq].
  apply IH.
Qed.

Lemma form_payments_value_error (rows : list payment_input)
    (acc : list Payment.t) (e : exn) :
  form_payments rows acc = Raise e -> e = ValueError.
Proof.
  revert acc. induction rows as [|i rows IH]; intros acc; simpl;
    [discriminate|]. unfold form_payment.
  destruct (parse_int_with_commas (perc_str i)) eqn:Ep; simpl;
    [|intros [= <-]; eapply parse_int_with_commas_value_error, Ep].
  destruct (parse_int_with_commas (amt_str i)) eqn:Eq; simpl;
    [|intros [= <-]; eapply parse_int_with_commas_value_error, Eq].
  apply IH.
Qed.

Lemma form_items_rows (rows : list item_input) (acc its : list Item.t) :
  form_items rows acc = Ok its ->
  exists new, its = acc ++ new /\ Forall2 item_of_row rows new.
Proof.
  revert acc. induction rows as [|[[d p] q] rows IH]; intros acc; simpl.
  - intros [= <-]. exists []. split; [now rewrite app_nil_r | constructor].
  - destruct (parse_int_with_commas p) as [x|] eqn:Ep; [|discriminate]. simpl.
    destruct (parse_int_with_commas q) as [y|] eqn:Eq; [|discriminate]. simpl.
    intros H. apply IH in H as (new & -> & Hnew).
    exists (Item.mk d x y :: new). split; [now rewrite <- app_assoc|].
    constructor; [|exact Hnew]. unfold item_of_row. simpl.
    repeat split; eauto using parse_int_with_commas_ok_nonneg.
Qed.

(** The run of the script without a click. *)
Lemma run_script_idle (env : Env) (f : form_input) (w w' : World)
    (r : result (option click)) :
  in_clicked f = false ->
  run_script env f w = (w', r) ->
  pdf w' = pdf w /\ invoice_data w' = invoice_data w /\
  (r = Ok None \/ r = Raise ValueError).
Proof.
  intros Hc. unfold run_script. rewrite bind_st_emit_run, bind_lift_run.
  destruct (form_items _ _) as [its|e] eqn:Ei;
    [|intros [= <- <-]; apply form_items_value_error in Ei; subst; auto].
  unfold bind at 1. rewrite show_totals_run.
  destruct (parse_int_with_commas (in_vat f)) as [v|e] eqn:Ev;
    [|intros [= <- <-]; apply parse_int_with_commas_value_error in Ev;
      subst; auto].
  rewrite bind_lift_run.
  destruct (form_payments _ _) as [ps|e] eqn:Ep;
    [|intros [= <- <-]; apply form_payments_value_error in Ep; subst; auto].
  rewrite Hc. intros [= <- <-]. auto.
Qed.





Lemma sum_of_nonneg {A} (f : A -> Z) (l : list A) :
  Forall (fun x => 0 <= f x) l -> 0 <= sum_of f l.
Proof. induction 1; simpl; lia. Qed.

(** X19: the invoice that a click generates is the form's: one item per
    row of the form, in order, with its description and the numbers read
    from its two fields, the VAT read from its field, the client and the
    invoice number as typed; and no price, amount to be paid, VAT or total
    price in it is negative, whatever was typed. *)
Theorem generated_invoice_is_the_form (env : Env) (f : form_input)
    (w w' : World) (pdf_bytes : option document) :
  run_script env f w = (w', Ok (Some (Generated pdf_bytes))) ->
  let d := invoice_data w' in
  Forall2 item_of_row (in_items f) (items d) /\
  parse_int_with_commas (in_vat f) = Ok (vat d) /\
  0 <= vat d /\ 0 <= sum_of Item.price (items d) /\
  0 <= sum_of Item.paid (items d) + vat d /\
  invoice_number d = in_invoice_number f /\
  invoice_date d = in_invoice_date f /\
  client_name d = in_client_name f /\
  country d = in_country f /\ phone d = in_phone f /\
  length (payments d) = length (in_payments f).
Proof.
  intros H d.
  assert (Hc : in_clicked f = true).
  { destruct (in_clicked f) eqn:Hc; [reflexivity|].
    destruct (run_script_idle env f w w' _ Hc H) as (_ & _ & [[=]|[=]]). }
  rewrite (run_script_click env f w Hc) in H.
  destruct (form_items _ _) as [its|e] eqn:Ei; [|discriminate]. cbv zeta in H.
  rewrite show_totals_run in H.
  destruct (parse_int_with_commas (in_vat f)) as [v|e] eqn:Ev; [|discriminate].
  destruct (form_payments _ _) as [ps|e] eqn:Ep; [|discriminate].
  destruct (generate_invoice _ _) as [w3 [c|e]] eqn:Eg; [|discriminate].
  injection H as <- ->.
  apply generate_invoice_generated, create_invoice_pdf_relabelled in Eg.
  destruct Eg as (E1 & E2 & E3 & E4 & E5 & E6 & E7 & E8).
  cbn [invoice_data invoice_number invoice_date client_name country phone
       items vat payments] in *.
  subst d. rewrite E1, E2, E3, E4, E5, E6, E7.
  apply form_items_rows in Ei as (new & -> & Hrows). simpl.
  pose proof (parse_int_with_commas_ok_nonneg _ _ Ev) as Hv.
  assert (Hprice : 0 <= sum_of Item.price new).
  { apply sum_of_nonneg. clear -Hrows.
    induction Hrows as [|? ? ? ? (_ & _ & _ & ? & _)]; constructor; auto. }
  assert (Hpaid : 0 <= sum_of Item.paid new).
  { apply sum_of_nonneg. clear -Hrows.
    induction Hrows as [|? ? ? ? (_ & _ & _ & _ & ?)]; constructor; auto. }
  repeat split; auto; try lia.
  apply Forall2_length in E8. rewrite <- E8. clear -Ep.
  assert (Hlen : forall rows acc ps0,
            form_payments rows acc = Ok ps0 ->
            length ps0 = (length acc + length rows)%nat).
  { induction rows as [|i rows IH]; intros acc ps0; simpl.
    - intros [= <-]. lia.
    - destruct (form_payment i); [|discriminate]. simpl. intros H.
      apply IH in H. rewrite length_app in H. simpl in H. lia. }
  apply Hlen in Ep. exact Ep.
Qed.

Lemma generated_invoice_is_the_form_witness :
  exists w' pdf_bytes,
    run_script env_no_logo
      (mkFormInput (lit "369/2025") (lit "Pr Noura Abdullah Faisal")
         (lit "Kuwait") (lit "+965 1234 5678") (lit "03/11/2026") (lit "-5")
         [(lit "Item 1", lit "1,000", lit "-500")]
         [mkPaymentInput (lit "full payment") None (lit "100") (lit "0") []]
         true)
      (request (sample_invoice [] 0 [])) =
    (w', Ok (Some (Generated pdf_bytes))) /\
    0 <= vat (invoice_data w') /\
    0 <= sum_of Item.paid (items (invoice_data w')) + vat (invoice_data w').
Proof.
  match goal with
  | |- exists w' pdf_bytes, ?m = _ /\ _ =>
      destruct m as [w' [[[errs|pdf_bytes]|]|e]] eqn:E;
        try (vm_compute in E; discriminate)
  end.
  destruct (generated_invoice_is_the_form _ _ _ _ _ E)
    as (_ & _ & Hv & _ & Hp & _).
  exists w', pdf_bytes. auto.
Defined.

(** ** The bank details *)

Lemma print_bank_column_ok (env : Env) (x : Q) (cw : Z)
    (data : list (str * str)) (ts ds : Z) (y yend : Q) (w w' : World) :
  print_bank_column env x y cw data ts ds w = (w', Ok yend) ->
  exists ops,
    w' = drawn w ops /\ Forall (column_call x cw) ops /\
    match data with
    | [] => ops = [] /\ yend = y
    | _ :: _ =>
        hd_error ops = Some (SetXY x y) /\ yend = cursor_y env (pdf w ++ ops)
    end.
Proof.
  unfold print_bank_column. revert y w.
  induction data as [|[t d] r IH]; intros y w H; cbn [for_fold] in H.
  - injection H as <- <-. exists []. now rewrite drawn_nil.
  - apply bind_ok in H as (y1 & w1 & Hb & H). run_ok Hb.
    injection Hb as <- <-.
    apply IH in H as (ops & -> & Hall & Hend). rewrite drawn_drawn.
    eexists. split; [reflexivity|]. split.
    + repeat (constructor; [simpl; auto|]). exact Hall.
    + split; [reflexivity|]. destruct r as [|e r].
      * destruct Hend as [-> ->]. now rewrite app_nil_r.
      * destruct Hend as [_ ->]. rewrite ?drawn_pdf, <- ?app_assoc. reflexivity.
Qed.

Lemma Qmax_cases (a b : Q) : (Qmax a b = a \/ Qmax a b = b).
Proof.
  unfold Qmax, GenericMinMax.gmax. destruct (a ?= b)%Q; auto.
Qed.

(** X20: the four columns of the bank details start at the same height,
    at 10, 65, 120 and 175 mm, each 45 mm wide, and are written one after
    the other; the section ends 5 mm below the lowest of the four column
    ends, where the rule is drawn from 10 to 200 mm. *)
Theorem bank_details_columns (env : Env) (w w' : World) :
  example_bank_details_4columns env w = (w', Ok tt) ->
  exists head c1 c2 c3 c4 final_y y_line,
    let start := pdf w ++ head in
    let start_y := cursor_y env start in
    let col1_end := cursor_y env (start ++ c1) in
    let col2_end := cursor_y env (start ++ c1 ++ c2) in
    let col3_end := cursor_y env (start ++ c1 ++ c2 ++ c3) in
    let col4_end := cursor_y env (start ++ c1 ++ c2 ++ c3 ++ c4) in
    pdf w' = start ++ c1 ++ c2 ++ c3 ++ c4 ++
             [SetY (final_y + 5)%Q; Line 10%Q y_line 200%Q y_line; Ln 3] /\
    column_at 10%Q start_y 45 c1 /\ column_at 65%Q start_y 45 c2 /\
    column_at 120%Q start_y 45 c3 /\ column_at 175%Q start_y 45 c4 /\
    (col1_end <= final_y /\ col2_end <= final_y /\
     col3_end <= final_y /\ col4_end <= final_y)%Q /\
    (final_y = col1_end \/ final_y = col2_end \/
     final_y = col3_end \/ final_y = col4_end) /\
    y_line = cursor_y env (start ++ c1 ++ c2 ++ c3 ++ c4 ++
                           [SetY (final_y + 5)%Q]).
Proof.
  intros H. unfold example_bank_details_4columns in H. run_ok H.
  match type of H with
  | _ (drawn w ?l) = _ => generalize dependent l; intros head H
  end.
  apply bind_ok in H as (e1 & w1 & H1 & H).
  apply print_bank_column_ok in H1 as (c1 & -> & F1 & [S1 ->]).
  apply bind_ok in H as (e2 & w2 & H2 & H).
  apply print_bank_column_ok in H2 as (c2 & -> & F2 & [S2 ->]).
  apply bind_ok in H as (e3 & w3 & H3 & H).
  apply print_bank_column_ok in H3 as (c3 & -> & F3 & [S3 ->]).
  apply bind_ok in H as (e4 & w4 & H4 & H).
  apply print_bank_column_ok in H4 as (c4 & -> & F4 & [S4 ->]).
  rewrite ?drawn_drawn in H. run_ok H.
  unfold emit in H. cbn [fault] in H. injection H as <-.
  rewrite ?drawn_pdf in *.
  exists head, c1, c2, c3, c4.
  match goal with |- context [SetY (?f + 5)%Q] => exists f end.
  match goal with |- context [Line _ ?y _ _] => exists y end.
  cbv zeta. rewrite <- !app_assoc.
  split; [reflexivity|].
  split; [split; [exact S1 | exact F1]|].
  split; [split; [exact S2 | exact F2]|].
  split; [split; [exact S3 | exact F3]|].
  split; [split; [exact S4 | exact F4]|].
  split; [|split; [|reflexivity]].
  - repeat split.
    + eapply Qle_trans; [|apply Q.le_max_l].
      eapply Qle_trans; [|apply Q.le_max_l]. apply Q.le_max_l.
    + eapply Qle_trans; [|apply Q.le_max_l].
      eapply Qle_trans; [|apply Q.le_max_l]. apply Q.le_max_r.
    + eapply Qle_trans; [|apply Q.le_max_l]. apply Q.le_max_r.
    + apply Q.le_max_r.
  - match goal with
    | |- Qmax (Qmax (Qmax ?a ?b) ?c) ?d = _ \/ _ =>
        destruct (Qmax_cases (Qmax (Qmax a b) c) d) as [->| ->]; [|auto];
        destruct (Qmax_cases (Qmax a b) c) as [->| ->]; [|auto];
        destruct (Qmax_cases a b) as [->| ->]; auto
    end.
Qed.

Lemma bank_details_columns_witness :
  exists w' c1 c2 c3 c4,
    example_bank_details_4columns env_complete
      (request (sample_invoice [] 0 [])) = (w', Ok tt) /\
    column_at 10%Q 0%Q 45 c1 /\ column_at 65%Q 0%Q 45 c2 /\
    column_at 120%Q 0%Q 45 c3 /\ column_at 175%Q 0%Q 45 c4.
Proof.
  destruct (example_bank_details_4columns env_complete
              (request (sample_invoice [] 0 []))) as [w' [[]|e]] eqn:E;
    [|vm_compute in E; discriminate].
  destruct (bank_details_columns _ _ _ E)
    as (head & c1 & c2 & c3 & c4 & fy & yl & _ & H1 & H2 & H3 & H4 & _).
  exists w', c1, c2, c3, c4. auto.
Defined.

(** ** A total price of zero *)

Lemma amount_of_zero_base (perc v : Z) : amount_of perc 0 = Ok v -> v = 0.
Proof.
  unfold amount_of, PyFloat.int_truediv, PyFloat.mul_int.
  change (100 =? 0) with false. cbv iota.
  change (PyFloat.of_int 0) with (Ok (S754_zero false) : result PyFloat.float).
  destruct (SFdiv _ _ _ _) as [s| s| |s m e]; simpl;
    try discriminate; now intros [= <-].
Qed.

Lemma derive_entry_zero_base_same (p p' : Payment.t) :
  derive_entry 0 p = Ok p' -> p' = p.
Proof.
  unfold derive_entry.
  destruct (decide _) as [[Hp Ha]|_].
  - unfold percentage_of, PyFloat.int_truediv. simpl. discriminate.
  - destruct (decide _) as [[Ha Hp]|_]; [|now intros [= <-]].
    destruct (amount_of _ 0) as [v|e] eqn:E; [|discriminate].
    apply amount_of_zero_base in E. subst v. intros [= <-].
    destruct p; simpl in *. now subst.
Qed.

Lemma derive_all_zero_base_same (ps ps' : list Payment.t) :
  derive_all 0 ps = Ok ps' ->
  ps' = ps /\
  Forall (fun p => Payment.percentage p = 0 -> Payment.amount p = 0) ps.
Proof.
  intros Hd. apply derive_all_each in Hd.
  induction Hd as [|p p' ps ps' Hp _ [IH1 IH2]]; [split; constructor|].
  pose proof (derive_entry_zero_base_same _ _ Hp) as ->.
  rewrite IH1. split; [reflexivity|]. constructor; [|exact IH2].
  intros Hperc. destruct (Z.eq_dec (Payment.amount p) 0) as [|Ha]; [auto|].
  rewrite derive_entry_zero_base in Hp by assumption. discriminate.
Qed.

(** X21: with a total price of zero the derivation has nothing to add: a
    generation that returns a document leaves the data as it was entered
    (a percentage alone keeps its amount 0), and it returns a document
    only if no payment has an amount without a percentage. *)
Theorem zero_total_price_nothing_derived (env : Env) (w w' : World)
    (doc : document) :
  sum_of Item.price (items (invoice_data w)) = 0 ->
  create_invoice_pdf env w = (w', Ok (Some doc)) ->
  invoice_data w' = invoice_data w /\
  Forall (fun p => Payment.percentage p = 0 -> Payment.amount p = 0)
         (payments (invoice_data w)).
Proof.
  intros Hz H. apply create_invoice_pdf_some in H as [H _].
  apply compose_ok in H as (ps' & pre & mid1 & mid2 & post & Hd & Hw & _).
  cbn [composing invoice_data] in Hd, Hw. rewrite Hz in Hd.
  apply derive_all_zero_base_same in Hd as [-> Hall]. split; [|exact Hall].
  rewrite Hw. apply set_payments_same.
Qed.

Lemma zero_total_price_nothing_derived_witness :
  exists w' doc,
    create_invoice_pdf env_no_logo
      (request (sample_invoice [] 0 [pay 60 0; pay 40 0])) =
    (w', Ok (Some doc)) /\
    invoice_data w' = sample_invoice [] 0 [pay 60 0; pay 40 0].
Proof.
  destruct (create_invoice_pdf env_no_logo
              (request (sample_invoice [] 0 [pay 60 0; pay 40 0])))
    as [w' [[doc|]|e]] eqn:E; try (vm_compute in E; discriminate).
  destruct (zero_total_price_nothing_derived env_no_logo
              (request (sample_invoice [] 0 [pay 60 0; pay 40 0])) w' doc
              eq_refl E) as [Hd _].
  exists w', doc. split; [reflexivity | exact Hd].
Defined.
